(** * createVideo.py: images + narration paragraphs -> narrated video

    A shallow embedding of [src/createVideo.py].  Python [str] values are
    lists of Unicode code points, the filesystem is a finite map from path
    strings to nodes, and the three collaborators the script talks to (the
    VOICEVOX HTTP service, the disk under [open(..., "wb")] and the [ffmpeg]
    subprocess) are functions of an environment record.  [main] is written
    in a small state-and-exception monad so that it reads like the script. *)

From Stdlib Require Import ZArith NArith QArith List Bool Lia String Ascii.
From Stdlib Require Import PrimFloat Uint63 FloatOps SpecFloat DecimalN.
From Stdlib Require Import Sorting.Sorted Sorting.Permutation.
From stdpp Require Import base option list gmap.
Import ListNotations.

Local Open Scope N_scope.
Local Open Scope list_scope.

(** ** Python strings *)

(** A [str] is a sequence of code points. *)
Definition str : Type := list N.

(** A string literal of the source (ASCII only). *)
Definition lit (s : string) : str :=
  List.map (fun a => N.of_nat (nat_of_ascii a)) (list_ascii_of_string s).

Definition str_eqb (a b : str) : bool := bool_decide (a = b).

(** [c.isspace()] for one code point: the table behind [str.strip()]. *)
Definition is_space (c : N) : bool :=
  ((9 <=? c) && (c <=? 13)) || ((28 <=? c) && (c <=? 32))
  || (c =? 133) || (c =? 160) || (c =? 5760)
  || ((8192 <=? c) && (c <=? 8202))
  || (c =? 8232) || (c =? 8233) || (c =? 8239) || (c =? 8287) || (c =? 12288).

(** The line break: the newline character, which is what a text read in
    text mode holds for every line ending. *)
Definition is_nl (c : N) : bool := c =? 10.

Fixpoint lstrip (s : str) : str :=
  match s with
  | [] => []
  | c :: s' => if is_space c then lstrip s' else s
  end.

Definition rstrip (s : str) : str := rev (lstrip (rev s)).

(** [s.strip()] *)
Definition strip (s : str) : str := rstrip (lstrip s).

Definition all_space (s : str) : bool := forallb is_space s.

(** Truthiness of a [str]: non-empty. *)
Definition truthy (s : str) : bool :=
  match s with [] => false | _ => true end.

(** [s.split("\n\n")], with [cur] the piece read so far: occurrences of the
    separator are taken left to right and do not overlap. *)
Fixpoint split_nn (cur s : str) : list str :=
  match s with
  | [] => [cur]
  | c :: s' =>
      match s' with
      | [] => [cur ++ [c]]
      | d :: s'' =>
          if is_nl c && is_nl d then cur :: split_nn [] s''
          else split_nn (cur ++ [c]) s'
      end
  end.

(** ** Paragraph splitter *)

(** Lines 41-43 of the source, on the decoded content of the file:
[[
    content = f.read().strip()
    blocks = [block.strip() for block in content.split("\n\n") if block.strip()]
]] *)
Definition split_paragraphs (raw : str) : list str :=
  let content := strip raw in
  List.map strip
    (List.filter (fun block => truthy (strip block)) (split_nn [] content)).

(** The splitter as the specification words it.  The text is read left to
    right; [ws] is the run of whitespace being read and [cur] the block
    before it.  When the run ends, it is a paragraph boundary exactly when
    it contains two consecutive line breaks; otherwise it stays inside the
    block. *)
Fixpoint has_nn (s : str) : bool :=
  match s with
  | [] => false
  | c :: s' =>
      match s' with
      | [] => false
      | d :: _ => (is_nl c && is_nl d) || has_nn s'
      end
  end.

Fixpoint spec_pieces (cur ws s : str) : list str :=
  match s with
  | [] => if has_nn ws then [cur; []] else [cur ++ ws]
  | c :: s' =>
      if is_space c then spec_pieces cur (ws ++ [c]) s'
      else if has_nn ws then cur :: spec_pieces [c] [] s'
      else spec_pieces (cur ++ ws ++ [c]) [] s'
  end.

(** Trim every block and discard the ones that are empty after trimming. *)
Definition trim_blocks (pieces : list str) : list str :=
  List.filter truthy (List.map strip pieces).

(** Split on the boundary runs, trim every block, discard the empty ones. *)
Definition spec_split_paragraphs (raw : str) : list str :=
  trim_blocks (spec_pieces [] [] raw).

(** Does the string end, or start, with a line break? *)
Definition ends_nl (s : str) : bool :=
  match rev s with [] => false | c :: _ => is_nl c end.

Definition starts_nl (s : str) : bool :=
  match s with [] => false | c :: _ => is_nl c end.

(** ["\n\n".join(pieces)] *)
Fixpoint join_nn (pieces : list str) : str :=
  match pieces with
  | [] => []
  | p :: ps => match ps with [] => p | _ :: _ => p ++ [10; 10] ++ join_nn ps end
  end.

(** [Laid blocks s]: the blocks occur in [s] in this order, one after the
    other, with nothing but whitespace around and between them. *)
Inductive Laid : list str -> str -> Prop :=
| Laid_nil (w : str) : all_space w = true -> Laid [] w
| Laid_cons (w b : str) (bs : list str) (s : str) :
    all_space w = true -> Laid bs s -> Laid (b :: bs) (w ++ b ++ s).

(** ** Formatting and paths *)

Fixpoint uint_digits (u : Decimal.uint) : str :=
  match u with
  | Decimal.Nil => []
  | Decimal.D0 u => 48 :: uint_digits u
  | Decimal.D1 u => 49 :: uint_digits u
  | Decimal.D2 u => 50 :: uint_digits u
  | Decimal.D3 u => 51 :: uint_digits u
  | Decimal.D4 u => 52 :: uint_digits u
  | Decimal.D5 u => 53 :: uint_digits u
  | Decimal.D6 u => 54 :: uint_digits u
  | Decimal.D7 u => 55 :: uint_digits u
  | Decimal.D8 u => 56 :: uint_digits u
  | Decimal.D9 u => 57 :: uint_digits u
  end.

(** [str(n)] for a non-negative integer. *)
Definition decimal (n : N) : str := uint_digits (N.to_uint n).

(** [f"{n:03d}"]: decimal, padded with zeros on the left to three digits. *)
Definition fmt_03d (n : N) : str :=
  let ds := decimal n in repeat 48 (3 - length ds)%nat ++ ds.

(** A [pathlib.Path] (POSIX flavour): the anchor (empty, or the root) and
    the parts after it. *)
Record Path := mkPath { anchor : str; parts : list str }.

(** [p / name] *)
Definition path_div (p : Path) (name : str) : Path :=
  {| anchor := anchor p; parts := parts p ++ [name] |}.


Fixpoint join_parts (ps : list str) : str :=
  match ps with
  | [] => []
  | a :: r => match r with [] => a | _ :: _ => a ++ [47] ++ join_parts r end
  end.

(** [str(p)] *)
Definition path_str (p : Path) : str :=
  match anchor p, parts p with
  | [], [] => lit "."
  | a, ps => a ++ join_parts ps
  end.

(** [p.name]: the last part. *)
Definition name (p : Path) : str := List.last (parts p) [].

(** [s.rfind(c)] *)
Fixpoint rfind (c : N) (s : str) : option nat :=
  match s with
  | [] => None
  | x :: s' =>
      match rfind c s' with
      | Some i => Some (S i)
      | None => if x =? c then Some O else None
      end
  end.

(** [p.suffix]: from the last dot of the name on, when that dot is neither
    the first nor the last character of the name. *)
Definition suffix (p : Path) : str :=
  let nm := name p in
  match rfind 46 nm with
  | Some i =>
      if (0 <? i)%nat && (i <? length nm - 1)%nat then skipn i nm else []
  | None => []
  end.

(** [c.lower()] for one code point.  ASCII capitals map to their small
    letters.  Outside ASCII only two code points have a lowercase form that
    contains an ASCII letter (U+0130 and the Kelvin sign); every other
    lowercase form stays outside ASCII, which is all that a comparison with
    the ASCII extensions below can observe, and is left as it is here. *)
Definition lower_char (c : N) : str :=
  if (65 <=? c) && (c <=? 90) then [c + 32]
  else if c =? 304 then [105; 775]
  else if c =? 8490 then [107]
  else [c].

(** [s.lower()] *)
Definition lower (s : str) : str := flat_map lower_char s.

(** Comparison of [str]: lexicographic on code points. *)
Fixpoint str_ltb (a b : str) : bool :=
  match a, b with
  | _, [] => false
  | [], _ :: _ => true
  | x :: a', y :: b' => (x <? y) || ((x =? y) && str_ltb a' b')
  end.

(** Comparison of lists of [str], as Python compares lists. *)
Fixpoint parts_ltb (p q : list str) : bool :=
  match p, q with
  | _, [] => false
  | [], _ :: _ => true
  | x :: p', y :: q' => str_ltb x y || (str_eqb x y && parts_ltb p' q')
  end.

(** What [pathlib] compares: the anchor, when there is one, then the parts. *)
Definition cparts (p : Path) : list str :=
  match anchor p with [] => parts p | a => a :: parts p end.

(** [p < q] on paths. *)
Definition path_ltb (p q : Path) : bool := parts_ltb (cparts p) (cparts q).

(** [sorted(l)]: a stable sort that only ever asks [<]. *)
Fixpoint insert_sorted (x : Path) (l : list Path) : list Path :=
  match l with
  | [] => [x]
  | y :: l' => if path_ltb y x then y :: insert_sorted x l' else x :: l
  end.

Definition sorted (l : list Path) : list Path := fold_right insert_sorted [] l.



(** Line 68. *)
Definition image_exts : list str :=
  [lit ".png"; lit ".jpg"; lit ".jpeg"; lit ".bmp"].

(** [p.suffix.lower() in image_exts] *)
Definition is_image (p : Path) : bool :=
  existsb (str_eqb (lower (suffix p))) image_exts.

(** ** The filesystem and the collaborators *)

(** What a file holds, as far as the script can tell: text that decodes as
    UTF-8 (read with universal newlines), a WAVE container with the frame
    count and the sample rate of its header, or anything else. *)
Inductive Data :=
| Text (content : str)
| Wav (nframes framerate : N)
| Blob.

Inductive Node :=
| File (d : Data)
| Dir (entries : list str).

(** The exceptions of a run, by class.  [NotAWave] stands for what
    [wave.open] raises on a file that is no WAVE container: [wave.Error], or
    [EOFError] when the file ends inside a header it reads (an empty file, a
    file of fewer than 8 bytes).  Which of the two depends on the bytes of
    the file, which [Data] does not hold; the script catches neither. *)
Inductive Exn :=
| ConnectionError | HTTPError | JSONDecodeError | OSError
| FileNotFoundError | IsADirectoryError | FileExistsError | UnicodeDecodeError
| NotAWave | ZeroDivisionError | CalledProcessError | IndexError.

(** The synthesis request of VOICEVOX: the speed field the script
    overwrites, and the rest. *)
Record AudioQuery := { speedScale : float; accent_phrases : str }.

Inductive HttpReply (A : Type) :=
| Reply (ok : bool) (body : A)
| NoReply.
Arguments Reply {A} ok body.
Arguments NoReply {A}.

Inductive WriteResult :=
| Written
| WriteFailed (left : option Data).

(** How a subprocess ends: exit status 0; a non-zero exit status, with or
    without an output file left behind; or the program could not be started. *)
Inductive Proc :=
| ProcOk
| ProcFailed (left_output : bool)
| ProcNotLaunched.

(** The world outside the script.  Each collaborator answers the request it
    is sent; the requests of one run are told apart by the file they are
    made for. *)
Record Env := {
  audio_query : str -> str -> Z -> HttpReply (option AudioQuery);
  synthesis : str -> AudioQuery -> Z -> HttpReply Data;
  disk_write : str -> Data -> WriteResult;
  ffmpeg_render : str -> str -> float -> str -> Proc;
  ffmpeg_concat : str -> str -> Proc
}.

Inductive Msg :=
| MsgMissingInput
| MsgNoImages
| MsgImagesShort (n_frames n_lines : nat)
| MsgLinesShort (n_frames n_lines : nat)
| MsgSynthFailed (preview : str) (e : Exn)
| MsgRenderFailed (clip : str) (e : Exn)
| MsgConcatFailed (e : Exn)
| MsgDone (out : str).

(** What a run does that can be seen from outside, in order: what it
    prints, the requests it sends, the commands it runs.  A request is
    logged with the file it is made for.  [RunRender] carries the duration
    whose [str()] the script passes after [-t].  [Iteration] marks the entry
    into the body of the loop, with the pair the iteration works on. *)
Inductive Event :=
| Print (m : Msg)
| PostAudioQuery (out_path text : str) (speaker_id : Z)
| PostSynthesis (out_path : str) (query : AudioQuery) (speaker_id : Z)
| RunRender (frame audio : str) (duration : float) (clip : str)
| RunConcat (out : str)
| Iteration (i : nat) (frame : Path) (text : str).

Record State := mkState { fs : gmap str Node; log : list Event }.

(** A statement returns a value, leaves through [sys.exit], or raises. *)
Inductive Res (A : Type) :=
| Val (a : A)
| Exit (code : Z)
| Raise (e : Exn).
Arguments Val {A} a.
Arguments Exit {A} code.
Arguments Raise {A} e.

Definition M (A : Type) : Type := State -> Res A * State.

Definition ret {A : Type} (a : A) : M A := fun st => (Val a, st).

Definition bind {A B : Type} (m : M A) (k : A -> M B) : M B :=
  fun st =>
    match m st with
    | (Val a, st') => k a st'
    | (Exit c, st') => (Exit c, st')
    | (Raise e, st') => (Raise e, st')
    end.

Notation "'let!' x ':=' m 'in' k" := (bind m (fun x => k))
  (at level 10, x pattern, m at level 100, k at level 200).

Definition raise {A : Type} (e : Exn) : M A := fun st => (Raise e, st).

Definition sys_exit {A : Type} (code : Z) : M A := fun st => (Exit code, st).

Definition emit (e : Event) : M unit :=
  fun st => (Val tt, {| fs := fs st; log := log st ++ [e] |}).

Definition print (m : Msg) : M unit := emit (Print m).

Definition stat (p : str) : M (option Node) := fun st => (Val (fs st !! p), st).

Definition store (p : str) (d : Data) : M unit :=
  fun st => (Val tt, {| fs := <[p := File d]> (fs st); log := log st |}).

(** [try: body except <caught>: handler] *)
Definition try_except {A : Type} (body : M A) (caught : Exn -> bool)
    (handler : Exn -> M A) : M A :=
  fun st =>
    match body st with
    | (Raise e, st') => if caught e then handler e st' else (Raise e, st')
    | r => r
    end.

(** [p.exists()], [p.is_dir()], [p.iterdir()] *)
Definition path_exists (p : Path) : M bool :=
  let! node := stat (path_str p) in ret (bool_decide (is_Some node)).

Definition is_dir (p : Path) : M bool :=
  let! node := stat (path_str p) in
  ret (match node with Some (Dir _) => true | _ => false end).

Definition iterdir (p : Path) : M (list Path) :=
  let! node := stat (path_str p) in
  match node with
  | Some (Dir entries) => ret (List.map (path_div p) entries)
  | Some (File _) => raise OSError
  | None => raise FileNotFoundError
  end.

(** Python's [a / b] on two integers that a double holds exactly, which
    covers the 32-bit fields of a WAVE header: the IEEE 754 quotient of the
    two doubles. *)
Definition float_of_N (n : N) : float := PrimFloat.of_uint63 (Uint63.of_Z (Z.of_N n)).

Definition truediv (a b : N) : float := PrimFloat.div (float_of_N a) (float_of_N b).

(** The exact value of a finite double, as a rational. *)
Definition float_value (x : float) : option Q :=
  match Prim2SF x with
  | S754_zero _ => Some 0%Q
  | S754_finite s m e =>
      let mag := (inject_Z (Z.pos m) * Qpower 2 e)%Q in
      Some (if s then Qopp mag else mag)
  | _ => None
  end.

(** ** The script *)

Record Args := {
  images : Path;
  lines : Path;
  speed : float;
  speaker : Z;
  output : str
}.

(** Lines 14-37.  Two requests to VOICEVOX, then the audio is written to
    [out_path]; whatever is raised on the way is caught, reported with the
    first 30 characters of the text, and turned into [False]. *)
Definition synthesize_voice (env : Env) (text : str) (out_path : Path)
    (speaker_id : Z) (speed : float) : M bool :=
  let out := path_str out_path in
  try_except
    (let! _ := emit (PostAudioQuery out text speaker_id) in
     let! query_json :=
       match audio_query env out text speaker_id with
       | NoReply => raise ConnectionError
       | Reply false _ => raise HTTPError
       | Reply true None => raise JSONDecodeError
       | Reply true (Some q) => ret q
       end in
     let query_json :=
       {| speedScale := speed; accent_phrases := accent_phrases query_json |} in
     let! _ := emit (PostSynthesis out query_json speaker_id) in
     let! content :=
       match synthesis env out query_json speaker_id with
       | NoReply => raise ConnectionError
       | Reply false _ => raise HTTPError
       | Reply true content => ret content
       end in
     let! _ :=
       match disk_write env out content with
       | Written => store out content
       | WriteFailed None => raise OSError
       | WriteFailed (Some partial) => let! _ := store out partial in raise OSError
       end in
     ret true)
    (fun _ => true)
    (fun e => let! _ := print (MsgSynthFailed (firstn 30 text) e) in ret false).

(** Lines 39-43. *)
Definition read_lines_with_paragraphs (path : Path) : M (list str) :=
  let! node := stat (path_str path) in
  match node with
  | None => raise FileNotFoundError
  | Some (Dir _) => raise IsADirectoryError
  | Some (File (Text content)) => ret (split_paragraphs content)
  | Some (File _) => raise UnicodeDecodeError
  end.

(** Lines 45-49. *)
Definition get_wav_duration (path : Path) : M float :=
  let! node := stat (path_str path) in
  match node with
  | None => raise FileNotFoundError
  | Some (Dir _) => raise IsADirectoryError
  | Some (File (Wav frames rate)) =>
      if rate =? 0 then raise ZeroDivisionError else ret (truediv frames rate)
  | Some (File _) => raise NotAWave
  end.

(** [subprocess.run([...], check=True)] for a command that writes [out]. *)
Definition subprocess_run (call : Event) (result : Proc) (out : str) : M unit :=
  let! _ := emit call in
  match result with
  | ProcOk => store out Blob
  | ProcFailed true => let! _ := store out Blob in raise CalledProcessError
  | ProcFailed false => raise CalledProcessError
  | ProcNotLaunched => raise FileNotFoundError
  end.

Definition is_CalledProcessError (e : Exn) : bool :=
  match e with CalledProcessError => true | _ => false end.

(** [l[i]] *)
Definition index {A : Type} (l : list A) (i : nat) : M A :=
  match l !! i with
  | Some x => ret x
  | None => raise IndexError
  end.

Definition audio_dir : Path := {| anchor := []; parts := [lit "audio"] |}.
Definition video_dir : Path := {| anchor := []; parts := [lit "clips"] |}.

(** [audio_dir / f"line{k:03d}.wav"] and [video_dir / f"clip{k:03d}.mp4"] *)
Definition audio_file (k : nat) : Path :=
  path_div audio_dir (lit "line" ++ fmt_03d (N.of_nat k) ++ lit ".wav").

Definition clip_file (k : nat) : Path :=
  path_div video_dir (lit "clip" ++ fmt_03d (N.of_nat k) ++ lit ".mp4").

(** [p.mkdir(exist_ok=True)] *)
Definition mkdir_exist_ok (p : Path) : M unit :=
  fun st =>
    match fs st !! path_str p with
    | None => (Val tt, {| fs := <[path_str p := Dir []]> (fs st); log := log st |})
    | Some (Dir _) => (Val tt, st)
    | Some (File _) => (Raise FileExistsError, st)
    end.

(** Lines 92-93: synthesize unless the audio file is already there. *)
Definition synthesis_step (env : Env) (args : Args) (text : str) (audio : Path)
    : M unit :=
  let! cached := path_exists audio in
  if negb cached
  then let! _ := synthesize_voice env text audio (speaker args) (speed args) in ret tt
  else ret tt.

(** Lines 97-110: render the clip; a non-zero exit status of [ffmpeg] is
    reported and the loop goes on. *)
Definition render_step (env : Env) (frame audio : Path) (duration : float)
    (clip : Path) : M unit :=
  try_except
    (subprocess_run
       (RunRender (path_str frame) (path_str audio) duration (path_str clip))
       (ffmpeg_render env (path_str frame) (path_str audio) duration (path_str clip))
       (path_str clip))
    is_CalledProcessError
    (fun e => print (MsgRenderFailed (path_str clip) e)).

(** The body of the loop of lines 86-110, for one [i]. *)
Definition process_item (env : Env) (args : Args) (frames : list Path)
    (lines : list str) (i : nat) : M unit :=
  let! frame := index frames i in
  let! text := index lines i in
  let audio := audio_file (i + 1) in
  let clip := clip_file (i + 1) in
  let! _ := emit (Iteration i frame text) in
  let! _ := synthesis_step env args text audio in
  let! duration := get_wav_duration audio in
  render_step env frame audio duration clip.

(** [for i in indices: body(i)] *)
Fixpoint for_each (indices : list nat) (body : nat -> M unit) : M unit :=
  match indices with
  | [] => ret tt
  | i :: rest => let! _ := body i in for_each rest body
  end.

(** One line of [filelist.txt]. *)
Definition manifest_line (clip : Path) : str :=
  lit "file '" ++ path_str clip ++ lit "'" ++ [10].

(** Lines 113-116: what the loop writes, given the files present. *)
Fixpoint manifest_lines (files : gmap str Node) (indices : list nat) : list str :=
  match indices with
  | [] => []
  | i :: rest =>
      let clip := clip_file i in
      if bool_decide (is_Some (files !! path_str clip))
      then manifest_line clip :: manifest_lines files rest
      else manifest_lines files rest
  end.

Definition filelist : str := lit "filelist.txt".

(** Lines 112-116.  [open("filelist.txt", "w")] raises when the name is
    that of a directory; otherwise the file is made, or emptied, and the
    lines are written to it. *)
Definition write_manifest (n : nat) : M unit :=
  fun st =>
    match fs st !! filelist with
    | Some (Dir _) => (Raise IsADirectoryError, st)
    | _ => store filelist (Text (concat (manifest_lines (fs st) (seq 1 n)))) st
    end.

(** Lines 118-126. *)
Definition concatenate (env : Env) (args : Args) : M unit :=
  fun st =>
    let listing :=
      match fs st !! filelist with Some (File (Text t)) => t | _ => [] end in
    (let! _ :=
       try_except
         (subprocess_run (RunConcat (output args))
            (ffmpeg_concat env listing (output args)) (output args))
         is_CalledProcessError
         (fun e => print (MsgConcatFailed e)) in
     print (MsgDone (output args))) st.

(** Lines 75-79: the number of items, and the warning when the two lists
    differ in length. *)
Definition align (frames : list Path) (lines : list str) : M nat :=
  let n := Nat.min (length frames) (length lines) in
  let! _ :=
    if (n <? length lines)%nat
    then print (MsgImagesShort (length frames) (length lines))
    else if (n <? length frames)%nat
    then print (MsgLinesShort (length frames) (length lines))
    else ret tt in
  ret n.

(** Lines 81-110: the two output directories, then the loop. *)
Definition make_clips (env : Env) (args : Args) (frames : list Path)
    (lines : list str) (n : nat) : M unit :=
  let! _ := mkdir_exist_ok audio_dir in
  let! _ := mkdir_exist_ok video_dir in
  for_each (seq 0 n) (process_item env args frames lines).

(** Lines 75-116: everything before the final concatenation. *)
Definition produce (env : Env) (args : Args) (frames : list Path)
    (lines : list str) : M unit :=
  let! n := align frames lines in
  let! _ := make_clips env args frames lines n in
  write_manifest n.

(** Lines 75-126: from the two lists to the end of the run. *)
Definition run_pipeline (env : Env) (args : Args) (frames : list Path)
    (lines : list str) : M unit :=
  let! _ := produce env args frames lines in
  concatenate env args.

(** Lines 61-74, then the rest. *)
Definition main (env : Env) (args : Args) : M unit :=
  let frames_dir := images args in
  let lines_file := lines args in
  let! dir_ok := is_dir frames_dir in
  let! lines_ok := path_exists lines_file in
  if negb dir_ok || negb lines_ok
  then let! _ := print MsgMissingInput in sys_exit 1
  else
    let! entries := iterdir frames_dir in
    let frames := sorted (List.filter is_image entries) in
    match frames with
    | [] => let! _ := print MsgNoImages in sys_exit 1
    | _ :: _ =>
        let! lines := read_lines_with_paragraphs lines_file in
        run_pipeline env args frames lines
    end.

(** The exit status of the process: an uncaught exception ends it with 1. *)
Definition exit_status (r : Res unit) : Z :=
  match r with
  | Val _ => 0
  | Exit code => code
  | Raise _ => 1
  end.

(** ** Reading a run *)

(** A fresh process over the files [files]. *)
Definition start (files : gmap str Node) : State := {| fs := files; log := [] |}.

(** [hoare P m Q]: from a state where [P] holds, [m] ends with a result and
    a state that [Q] relates.  [M] is a function type, so [m] always ends. *)
Definition hoare {A : Type} (P : State -> Prop) (m : M A)
    (Q : Res A -> State -> Prop) : Prop :=
  forall st, P st -> Q (fst (m st)) (snd (m st)).

(** Is there something at path [p]? *)
Definition present (files : gmap str Node) (p : str) : bool :=
  bool_decide (is_Some (files !! p)).

(** The text of [filelist.txt], when it has been written. *)
Definition manifest (st : State) : option str :=
  match fs st !! filelist with
  | Some (File (Text t)) => Some t
  | _ => None
  end.

Definition is_tts_call_for (out : str) (e : Event) : bool :=
  match e with
  | PostAudioQuery o _ _ => str_eqb o out
  | PostSynthesis o _ _ => str_eqb o out
  | _ => false
  end.

Definition is_tts_call (e : Event) : bool :=
  match e with
  | PostAudioQuery _ _ _ | PostSynthesis _ _ _ => true
  | _ => false
  end.

Definition is_render_call (e : Event) : bool :=
  match e with RunRender _ _ _ _ => true | _ => false end.

(** The events of the synthesis of [text]: the two requests, and the
    report of a failure with the preview of the text. *)
Definition synthesis_event (text : str) (e : Event) : Prop :=
  is_tts_call e = true \/ exists err, e = Print (MsgSynthFailed (firstn 30 text) err).

(** What was logged between [st] and a later state [st']. *)
Definition events_since (st st' : State) : list Event :=
  skipn (length (log st)) (log st').

(** A predicate on states is kept by the events [ok] when logging one of
    them keeps it, and by the writes at the paths [ok] when putting a node
    there keeps it. *)
Definition kept_by_events (I : State -> Prop) (ok : Event -> Prop) : Prop :=
  forall st e, ok e -> I st -> I {| fs := fs st; log := log st ++ [e] |}.

Definition kept_by_writes (I : State -> Prop) (ok : str -> Prop) : Prop :=
  forall st p n, ok p -> I st -> I {| fs := <[p := n]> (fs st); log := log st |}.

(** The cache invariant for the file [out]: it is on disk, and no request
    has been sent to VOICEVOX for it. *)
Definition cache_inv (out : str) (st : State) : Prop :=
  present (fs st) out = true
  /\ Forall (fun e => is_tts_call_for out e = false) (log st).

(** Since the log [l0], only the events [ok] were logged. *)
Definition logged_since (l0 : list Event) (ok : Event -> Prop) (st : State) : Prop :=
  exists evs, log st = l0 ++ evs /\ Forall ok evs.

(** The file [out] is on disk and, since the log [l0], no request has been
    sent to VOICEVOX at all. *)
Definition cached_quiet (out : str) (l0 : list Event) (st : State) : Prop :=
  present (fs st) out = true
  /\ logged_since l0 (fun e => is_tts_call e = false) st.

(** The state [st] shows that the clip of item [k] is the work of this run:
    the audio file of the item is on disk and playable, [F] frames at the
    rate [R]; the log holds the rendering of the image of the item with that
    audio file, the duration probed from it and the clip path of the item;
    and that rendering ended in a way that leaves a clip file, with exit
    status 0 or with a failure after some output. *)
Definition render_wrote (env : Env) (frames : list Path) (k : nat) (st : State)
    : Prop :=
  exists frame F R,
    (1 <= k)%nat /\ frames !! (k - 1)%nat = Some frame
    /\ R <> 0
    /\ fs st !! path_str (audio_file k) = Some (File (Wav F R))
    /\ In (RunRender (path_str frame) (path_str (audio_file k)) (truediv F R)
             (path_str (clip_file k))) (log st)
    /\ (ffmpeg_render env (path_str frame) (path_str (audio_file k)) (truediv F R)
          (path_str (clip_file k)) = ProcOk
        \/ ffmpeg_render env (path_str frame) (path_str (audio_file k)) (truediv F R)
             (path_str (clip_file k)) = ProcFailed true).

(** Every clip file on disk was there before the run, over [files], or is
    the work of this run. *)
Definition clips_accounted (env : Env) (frames : list Path) (files : gmap str Node)
    (st : State) : Prop :=
  forall k, present (fs st) (path_str (clip_file k)) = true ->
    present files (path_str (clip_file k)) = true \/ render_wrote env frames k st.

(** The iterations a run entered, in order. *)
Definition iterations (l : list Event) : list (nat * Path * str) :=
  flat_map (fun e => match e with Iteration i f t => [(i, f, t)] | _ => [] end) l.

(** The item of index [i]: image [i] with text block [i]. *)
Definition item_at (frames : list Path) (lines : list str) (i : nat)
    : list (nat * Path * str) :=
  match frames !! i, lines !! i with
  | Some f, Some t => [(i, f, t)]
  | _, _ => []
  end.


(** A WAVE file with a sample rate that is not zero. *)
Definition playable (node : option Node) : Prop :=
  exists F R, R <> 0 /\ node = Some (File (Wav F R)).

(** An environment in which nothing goes wrong: VOICEVOX answers every
    request with playable audio, writes succeed, [ffmpeg] can be started,
    the audio files already on disk are playable, and nothing stands where
    the two output directories go. *)
Definition healthy (env : Env) (files : gmap str Node) : Prop :=
  (forall out text sp, exists q, audio_query env out text sp = Reply true (Some q))
  /\ (forall out q sp, exists F R, R <> 0 /\ synthesis env out q sp = Reply true (Wav F R))
  /\ (forall out d, disk_write env out d = Written)
  /\ (forall f a d c, ffmpeg_render env f a d c <> ProcNotLaunched)
  /\ (forall l o, ffmpeg_concat env l o <> ProcNotLaunched)
  /\ (forall k, files !! path_str (audio_file k) = None
                \/ playable (files !! path_str (audio_file k)))
  /\ (forall d, files !! path_str audio_dir <> Some (File d))
  /\ (forall d, files !! path_str video_dir <> Some (File d)).

(** Every audio file on disk is playable. *)
Definition audio_playable (st : State) : Prop :=
  forall k, fs st !! path_str (audio_file k) = None
            \/ playable (fs st !! path_str (audio_file k)).





(** The message that ends a run: line 126. *)
Definition is_done (e : Event) : bool :=
  match e with Print (MsgDone _) => true | _ => false end.

(** Nothing logged so far is the completion message. *)
Definition not_done (st : State) : Prop :=
  Forall (fun e => is_done e = false) (log st).

(** How a run stands with its completion message: after a normal return it
    is the last thing logged, once, after the concatenation was started;
    otherwise it has not been logged. *)
Definition completion (args : Args) (r : Res unit) (st : State) : Prop :=
  match r with
  | Val _ =>
      exists evs, log st = evs ++ [Print (MsgDone (output args))]
        /\ Forall (fun e => is_done e = false) evs
        /\ In (RunConcat (output args)) evs
  | _ => not_done st
  end.

(** The audio files of the items 1 to [n] are on disk. *)
Definition audio_cached (n : nat) (st : State) : Prop :=
  forall k, (1 <= k <= n)%nat -> present (fs st) (path_str (audio_file k)) = true.

(** They are, and no request to VOICEVOX has been logged. *)
Definition cached_silent (n : nat) (st : State) : Prop :=
  audio_cached n st /\ Forall (fun e => is_tts_call e = false) (log st).




(** ** Sample worlds *)

Definition rel_path (ps : list string) : Path :=
  {| anchor := []; parts := List.map lit ps |}.

(** VOICEVOX answers, with one second of audio at 24 kHz; every write and
    every [ffmpeg] call succeeds. *)
Definition all_well : Env := {|
  audio_query := fun _ _ _ => Reply true (Some {| speedScale := 1; accent_phrases := [] |});
  synthesis := fun _ _ _ => Reply true (Wav 24000 24000);
  disk_write := fun _ _ => Written;
  ffmpeg_render := fun _ _ _ _ => ProcOk;
  ffmpeg_concat := fun _ _ => ProcOk
|}.

(** VOICEVOX cannot be reached. *)
Definition tts_down : Env := {|
  audio_query := fun _ _ _ => NoReply;
  synthesis := fun _ _ _ => NoReply;
  disk_write := fun _ _ => Written;
  ffmpeg_render := fun _ _ _ _ => ProcOk;
  ffmpeg_concat := fun _ _ => ProcOk
|}.

(** [ffmpeg] renders nothing: every rendering ends with a non-zero status
    and leaves no output. *)
Definition render_fails : Env := {|
  audio_query := audio_query all_well;
  synthesis := synthesis all_well;
  disk_write := fun _ _ => Written;
  ffmpeg_render := fun _ _ _ _ => ProcFailed false;
  ffmpeg_concat := fun _ _ => ProcOk
|}.

(** The final concatenation ends with a non-zero status. *)
Definition concat_fails : Env := {|
  audio_query := audio_query all_well;
  synthesis := synthesis all_well;
  disk_write := fun _ _ => Written;
  ffmpeg_render := fun _ _ _ _ => ProcOk;
  ffmpeg_concat := fun _ _ => ProcFailed false
|}.

(** Neither a rendering nor the final concatenation succeeds. *)
Definition ffmpeg_fails : Env := {|
  audio_query := audio_query all_well;
  synthesis := synthesis all_well;
  disk_write := fun _ _ => Written;
  ffmpeg_render := fun _ _ _ _ => ProcFailed false;
  ffmpeg_concat := fun _ _ => ProcFailed false
|}.

(** [createVideo.py img lines.txt] *)
Definition demo_args : Args := {|
  images := rel_path ["img"%string];
  lines := rel_path ["lines.txt"%string];
  speed := 1;
  speaker := 1;
  output := lit "output.mp4"
|}.

(** Two images (and a file that is not one), two paragraphs. *)
Definition demo_files : gmap str Node :=
  <[lit "img" := Dir [lit "b.PNG"; lit "a.png"; lit "notes.txt"]]>
  (<[lit "lines.txt" := File (Text (lit "hello" ++ [10; 10] ++ lit "world"))]> ∅).

(** The two images, sorted, and three text blocks. *)
Definition demo_frames : list Path :=
  [path_div (images demo_args) (lit "a.png"); path_div (images demo_args) (lit "b.PNG")].


Definition two_blocks : list str := [lit "hello"; lit "world"].


(** The same, with a narration file that holds blank lines only. *)
Definition no_paragraphs : gmap str Node :=
  <[lit "lines.txt" := File (Text [10; 10; 32; 10])]> demo_files.

(** The same, with the audio of both items left by an earlier run. *)
Definition with_audio : gmap str Node :=
  <[path_str (audio_file 1) := File (Wav 24000 24000)]>
  (<[path_str (audio_file 2) := File (Wav 36000 24000)]> demo_files).

(** The same, with the clip of item 1 left by an earlier run as well. *)
Definition with_stale_clip : gmap str Node :=
  <[path_str (clip_file 1) := File Blob]> with_audio.

(** An audio file of a single frame at 24 kHz. *)
Definition one_frame : gmap str Node :=
  <[path_str (audio_file 1) := File (Wav 1 24000)]> demo_files.

(** The same as [demo_files], with a regular file named [audio]. *)
Definition blocked_audio_dir : gmap str Node :=
  <[path_str audio_dir := File Blob]> demo_files.

(** The same, with an audio file for item 1 that is not a WAVE file. *)
Definition broken_audio : gmap str Node :=
  <[path_str (audio_file 1) := File Blob]> demo_files.

(** * Properties *)

Example split_paragraphs_ex :
  split_paragraphs
    (lit "  one" ++ [10] ++ lit "two" ++ [10; 10] ++ lit " three"
     ++ [10; 10; 10; 10] ++ lit "four" ++ [10; 32; 10] ++ lit "five" ++ [10; 10])
  = [lit "one" ++ [10] ++ lit "two"; lit "three";
     lit "four" ++ [10; 32; 10] ++ lit "five"].
Proof. vm_compute. reflexivity. Qed.

(** A line of blanks between two lines is no boundary: the line breaks
    around it are not consecutive. *)
Example blank_line_with_spaces :
  split_paragraphs (lit "a" ++ [10; 32; 10] ++ lit "b")
  = [lit "a" ++ [10; 32; 10] ++ lit "b"]
  /\ spec_split_paragraphs (lit "a" ++ [10; 32; 10] ++ lit "b")
     = [lit "a" ++ [10; 32; 10] ++ lit "b"].
Proof. vm_compute. split; reflexivity. Qed.

(** Three line breaks in a row, with an ideographic space before them. *)
Example three_line_breaks :
  split_paragraphs (lit "a" ++ [12288; 10; 10; 10] ++ lit "b") = [lit "a"; lit "b"]
  /\ spec_split_paragraphs (lit "a" ++ [12288; 10; 10; 10] ++ lit "b")
     = [lit "a"; lit "b"].
Proof. vm_compute. split; reflexivity. Qed.

Example spec_split_paragraphs_ex :
  spec_split_paragraphs
    (lit "  one" ++ [10] ++ lit "two" ++ [10; 10] ++ lit " three"
     ++ [10; 10; 10; 10] ++ lit "four" ++ [10; 32; 10] ++ lit "five" ++ [10; 10])
  = [lit "one" ++ [10] ++ lit "two"; lit "three";
     lit "four" ++ [10; 32; 10] ++ lit "five"].
Proof. vm_compute. reflexivity. Qed.

(** ** Whitespace and trimming *)

Lemma is_nl_space (c : N) : is_nl c = true -> is_space c = true.
Proof.
  unfold is_nl. intros H. apply N.eqb_eq in H. subst c. reflexivity.
Qed.

Lemma is_nl_eq (c : N) : is_nl c = true -> c = 10.
Proof. unfold is_nl. apply N.eqb_eq. Qed.

Lemma all_space_app (a b : str) :
  all_space (a ++ b) = all_space a && all_space b.
Proof. unfold all_space. apply forallb_app. Qed.

Lemma all_space_rev (a : str) : all_space (rev a) = all_space a.
Proof.
  induction a as [|c a IH]; simpl; [reflexivity|].
  rewrite all_space_app, IH. simpl. rewrite andb_true_r. apply andb_comm.
Qed.

Lemma lstrip_app (x y : str) :
  lstrip (x ++ y) = if all_space x then lstrip y else lstrip x ++ y.
Proof.
  induction x as [|c x IH]; simpl; [reflexivity|].
  destruct (is_space c); simpl; [exact IH | reflexivity].
Qed.

Lemma lstrip_all_space (w : str) : all_space w = true -> lstrip w = [].
Proof.
  induction w as [|c w IH]; simpl; [reflexivity|].
  destruct (is_space c); simpl; [exact IH | discriminate].
Qed.

Lemma lstrip_decomp (s : str) :
  exists t, all_space t = true /\ s = t ++ lstrip s.
Proof.
  induction s as [|c s [t [Ht Hs]]]; simpl.
  - exists []. split; reflexivity.
  - destruct (is_space c) eqn:Hc.
    + exists (c :: t). simpl. rewrite Hc, Ht. split; [reflexivity | congruence].
    + exists []. split; reflexivity.
Qed.

Lemma lstrip_head (s : str) (c : N) (r : str) :
  lstrip s = c :: r -> is_space c = false.
Proof.
  induction s as [|d s IH]; simpl; [discriminate|].
  destruct (is_space d) eqn:Hd; [exact IH|].
  intros H. injection H as -> _. exact Hd.
Qed.

Lemma rstrip_decomp (s : str) :
  exists w, all_space w = true /\ s = rstrip s ++ w.
Proof.
  destruct (lstrip_decomp (rev s)) as [t [Ht Hs]].
  exists (rev t). split; [now rewrite all_space_rev|].
  unfold rstrip. rewrite <- rev_app_distr, <- Hs. symmetry. apply rev_involutive.
Qed.

Lemma strip_decomp (s : str) :
  exists t w, all_space t = true /\ all_space w = true /\ s = t ++ strip s ++ w.
Proof.
  destruct (lstrip_decomp s) as [t [Ht Hs]].
  destruct (rstrip_decomp (lstrip s)) as [w [Hw Hr]].
  exists t, w. unfold strip. rewrite <- Hr. auto.
Qed.

Lemma rstrip_app_space (x w : str) :
  all_space w = true -> rstrip (x ++ w) = rstrip x.
Proof.
  intros Hw. unfold rstrip. rewrite rev_app_distr, lstrip_app.
  now rewrite all_space_rev, Hw.
Qed.

Lemma rstrip_nil : rstrip [] = [].
Proof. reflexivity. Qed.

Lemma strip_lead (t x : str) : all_space t = true -> strip (t ++ x) = strip x.
Proof. intros Ht. unfold strip. now rewrite lstrip_app, Ht. Qed.

Lemma strip_trail (x w : str) : all_space w = true -> strip (x ++ w) = strip x.
Proof.
  intros Hw. unfold strip. rewrite lstrip_app.
  destruct (all_space x) eqn:Hx.
  - now rewrite (lstrip_all_space w Hw), (lstrip_all_space x Hx).
  - now apply rstrip_app_space.
Qed.

Lemma strip_all_space (w : str) : all_space w = true -> strip w = [].
Proof. intros Hw. unfold strip. now rewrite lstrip_all_space. Qed.

Lemma strip_nil_all_space (p : str) : strip p = [] -> all_space p = true.
Proof.
  intros Hp. destruct (strip_decomp p) as [t [w [Ht [Hw Heq]]]].
  rewrite Heq, Hp, !all_space_app, Ht, Hw. reflexivity.
Qed.

Lemma strip_not_all_space (p : str) :
  strip p <> [] -> all_space (strip p) = false.
Proof.
  unfold strip, rstrip. intros Hne. rewrite all_space_rev.
  destruct (lstrip (rev (lstrip p))) as [|c r] eqn:E; [now destruct Hne|].
  simpl. now rewrite (lstrip_head _ _ _ E).
Qed.

Lemma truthy_true (s : str) : truthy s = true <-> s <> [].
Proof. destruct s; simpl; split; congruence. Qed.

(** ** The splitter of the source against the splitter of the specification *)

Lemma trim_blocks_cons (p : str) (ps : list str) :
  trim_blocks (p :: ps) = trim_blocks [p] ++ trim_blocks ps.
Proof. unfold trim_blocks. simpl. destruct (truthy (strip p)); reflexivity. Qed.

Lemma trim_blocks_space (w : str) : all_space w = true -> trim_blocks [w] = [].
Proof. intros Hw. unfold trim_blocks. simpl. now rewrite strip_all_space. Qed.

Lemma trim_blocks_comprehension (pieces : list str) :
  List.map strip (List.filter (fun block => truthy (strip block)) pieces)
  = trim_blocks pieces.
Proof.
  unfold trim_blocks. induction pieces as [|p ps IH]; simpl; [reflexivity|].
  destruct (truthy (strip p)); simpl; now rewrite IH.
Qed.

Lemma split_nn_single (cur : str) (c : N) (s : str) :
  is_nl c && starts_nl s = false ->
  split_nn cur (c :: s) = split_nn (cur ++ [c]) s.
Proof.
  destruct s as [|d s]; simpl; [reflexivity|].
  intros ->. reflexivity.
Qed.

Lemma split_nn_pair (cur : str) (c d : N) (s : str) :
  is_nl c = true -> is_nl d = true ->
  split_nn cur (c :: d :: s) = cur :: split_nn [] s.
Proof. simpl. intros -> ->. reflexivity. Qed.

Lemma has_nn_snoc (ws : str) (c : N) :
  has_nn (ws ++ [c]) = has_nn ws || (ends_nl ws && is_nl c).
Proof.
  induction ws as [|a ws IH]; [reflexivity|].
  destruct ws as [|b ws].
  - simpl. unfold ends_nl. simpl. now rewrite orb_false_r.
  - change (has_nn ((a :: b :: ws) ++ [c]))
      with ((is_nl a && is_nl b) || has_nn ((b :: ws) ++ [c])).
    rewrite IH.
    change (has_nn (a :: b :: ws)) with ((is_nl a && is_nl b) || has_nn (b :: ws)).
    rewrite orb_assoc. f_equal. f_equal.
    unfold ends_nl. simpl.
    destruct (rev ws ++ [b]) as [|x r] eqn:E.
    + now destruct (rev ws).
    + reflexivity.
Qed.

Lemma ends_nl_snoc (ws : str) (c : N) : ends_nl (ws ++ [c]) = is_nl c.
Proof. unfold ends_nl. now rewrite rev_app_distr. Qed.

Lemma code_lead (t : str) :
  all_space t = true ->
  forall s x, trim_blocks (split_nn (t ++ x) s) = trim_blocks (split_nn x s).
Proof.
  intros Ht. induction s as [|c s IH]; intros x.
  - simpl. unfold trim_blocks. simpl. now rewrite strip_lead.
  - destruct s as [|d s].
    + simpl. unfold trim_blocks. simpl. now rewrite <- app_assoc, strip_lead.
    + destruct (is_nl c && is_nl d) eqn:E.
      * apply andb_prop in E as [Hc Hd].
        rewrite (split_nn_pair (t ++ x)), (split_nn_pair x) by assumption.
        rewrite trim_blocks_cons, (trim_blocks_cons x).
        f_equal. unfold trim_blocks. simpl. now rewrite strip_lead.
      * rewrite (split_nn_single (t ++ x)), (split_nn_single x) by exact E.
        rewrite <- app_assoc. apply IH.
Qed.

Lemma spec_lead (t : str) :
  all_space t = true ->
  forall s x ws,
    trim_blocks (spec_pieces (t ++ x) ws s) = trim_blocks (spec_pieces x ws s).
Proof.
  intros Ht. induction s as [|c s IH]; intros x ws; simpl.
  - destruct (has_nn ws); unfold trim_blocks; simpl;
      rewrite <- ?app_assoc, strip_lead by exact Ht; reflexivity.
  - destruct (is_space c); [apply IH|].
    destruct (has_nn ws).
    + rewrite trim_blocks_cons, (trim_blocks_cons x). f_equal.
      unfold trim_blocks. simpl. now rewrite strip_lead.
    + rewrite <- app_assoc. apply IH.
Qed.

(** The simulation: reading [s], the source's splitter with current piece
    [cur ++ ws] (no boundary met inside the run [ws] yet), or with a piece
    [t] of blanks (a boundary was met inside the run), yields the blocks of
    the specification's splitter in state [(cur, ws)]. *)
Lemma split_simulation (n : nat) :
  forall s, (length s <= n)%nat ->
    (forall cur ws,
        all_space ws = true -> has_nn ws = false ->
        ends_nl ws && starts_nl s = false ->
        trim_blocks (split_nn (cur ++ ws) s) = trim_blocks (spec_pieces cur ws s))
    /\ (forall cur ws t,
        all_space ws = true -> has_nn ws = true -> all_space t = true ->
        trim_blocks [cur] ++ trim_blocks (split_nn t s)
        = trim_blocks (spec_pieces cur ws s)).
Proof.
  induction n as [|n IH]; intros s Hlen.
  - destruct s; [|simpl in Hlen; lia]. split.
    + intros cur ws Hws Hnn _. cbn [split_nn spec_pieces]. now rewrite Hnn.
    + intros cur ws t Hws Hnn Ht. cbn [split_nn spec_pieces]. rewrite Hnn.
      rewrite (trim_blocks_space t Ht), app_nil_r.
      unfold trim_blocks. simpl. now destruct (truthy (strip cur)).
  - destruct s as [|c s].
    { apply IH. simpl. lia. }
    assert (Hs : (length s <= n)%nat) by (simpl in Hlen; lia).
    destruct (IH s Hs) as [IH1 IH2].
    split.
    + intros cur ws Hws Hnn Hsync.
      destruct (is_space c) eqn:Hc.
      * (* a blank: the run [ws] grows *)
        cbn [spec_pieces]. rewrite Hc.
        destruct (is_nl c && starts_nl s) eqn:Hpair.
        -- (* the source meets "\n\n" *)
           apply andb_prop in Hpair as [Hcn Hsn].
           destruct s as [|d s]; [discriminate|]. simpl in Hsn.
           rewrite split_nn_pair by assumption.
           cbn [spec_pieces]. rewrite (is_nl_space d Hsn).
           assert (Hs' : (length s <= n)%nat) by (simpl in Hs; lia).
           destruct (IH s Hs') as [_ IH2'].
           rewrite <- (IH2' cur ((ws ++ [c]) ++ [d]) []).
           ++ rewrite trim_blocks_cons. f_equal.
              unfold trim_blocks. simpl. now rewrite strip_trail.
           ++ rewrite !all_space_app, Hws. simpl.
              now rewrite Hc, (is_nl_space d Hsn).
           ++ rewrite has_nn_snoc, ends_nl_snoc, Hcn, Hsn. apply orb_true_r.
           ++ reflexivity.
        -- rewrite split_nn_single by exact Hpair.
           rewrite <- app_assoc. apply IH1.
           ++ rewrite all_space_app, Hws. simpl. now rewrite Hc.
           ++ rewrite has_nn_snoc, Hnn. simpl.
              simpl in Hsync. destruct (ends_nl ws); [|reflexivity].
              simpl in Hsync. now rewrite Hsync.
           ++ now rewrite ends_nl_snoc.
      * (* a visible character: the run ends inside the block *)
        assert (Hcn : is_nl c = false).
        { destruct (is_nl c) eqn:E; [|reflexivity].
          apply is_nl_space in E. congruence. }
        cbn [spec_pieces]. rewrite Hc, Hnn.
        rewrite split_nn_single by now rewrite Hcn.
        rewrite <- (IH1 (cur ++ ws ++ [c]) []) by reflexivity.
        now rewrite app_nil_r, <- app_assoc.
    + intros cur ws t Hws Hnn Ht.
      destruct (is_space c) eqn:Hc.
      * cbn [spec_pieces]. rewrite Hc.
        assert (Hws' : all_space (ws ++ [c]) = true).
        { rewrite all_space_app, Hws. simpl. now rewrite Hc. }
        assert (Hnn' : has_nn (ws ++ [c]) = true).
        { now rewrite has_nn_snoc, Hnn. }
        destruct (is_nl c && starts_nl s) eqn:Hpair.
        -- apply andb_prop in Hpair as [Hcn Hsn].
           destruct s as [|d s]; [discriminate|]. simpl in Hsn.
           rewrite split_nn_pair by assumption.
           cbn [spec_pieces]. rewrite (is_nl_space d Hsn).
           assert (Hs' : (length s <= n)%nat) by (simpl in Hs; lia).
           destruct (IH s Hs') as [_ IH2'].
           rewrite <- (IH2' cur ((ws ++ [c]) ++ [d]) []).
           ++ f_equal. rewrite trim_blocks_cons.
              now rewrite (trim_blocks_space t Ht).
           ++ rewrite all_space_app, Hws'. simpl. now rewrite (is_nl_space d Hsn).
           ++ now rewrite has_nn_snoc, Hnn'.
           ++ reflexivity.
        -- rewrite split_nn_single by exact Hpair.
           apply IH2; try assumption.
           rewrite all_space_app, Ht. simpl. now rewrite Hc.
      * assert (Hcn : is_nl c = false).
        { destruct (is_nl c) eqn:E; [|reflexivity].
          apply is_nl_space in E. congruence. }
        cbn [spec_pieces]. rewrite Hc, Hnn.
        rewrite split_nn_single by now rewrite Hcn.
        rewrite (trim_blocks_cons cur (spec_pieces [c] [] s)). f_equal.
        rewrite code_lead by exact Ht.
        rewrite <- (IH1 [c] []) by reflexivity. reflexivity.
Qed.

Lemma split_nn_spec_pieces (s : str) :
  trim_blocks (split_nn [] s) = trim_blocks (spec_pieces [] [] s).
Proof.
  destruct (split_simulation (length s) s (le_n _)) as [H _].
  apply (H [] []); reflexivity.
Qed.

Lemma spec_pieces_blanks (t : str) :
  all_space t = true ->
  forall cur ws s, spec_pieces cur ws (t ++ s) = spec_pieces cur (ws ++ t) s.
Proof.
  induction t as [|c t IH]; intros Ht cur ws s; simpl.
  - now rewrite app_nil_r.
  - simpl in Ht. apply andb_prop in Ht as [Hc Ht].
    rewrite Hc, IH by exact Ht. now rewrite <- app_assoc.
Qed.

Lemma spec_pieces_any_run (s : str) :
  forall ws1 ws2, all_space ws1 = true -> all_space ws2 = true ->
    trim_blocks (spec_pieces [] ws1 s) = trim_blocks (spec_pieces [] ws2 s).
Proof.
  assert (Hend : forall ws, all_space ws = true ->
            trim_blocks (spec_pieces [] ws []) = []).
  { intros ws Hws. cbn [spec_pieces]. destruct (has_nn ws); [reflexivity|].
    now apply trim_blocks_space. }
  assert (Hvis : forall ws c r, all_space ws = true -> is_space c = false ->
            trim_blocks (spec_pieces [] ws (c :: r))
            = trim_blocks (spec_pieces [c] [] r)).
  { intros ws c r Hws Hc. cbn [spec_pieces]. rewrite Hc.
    destruct (has_nn ws).
    - rewrite trim_blocks_cons. now rewrite (trim_blocks_space [] eq_refl).
    - change ([] ++ ws ++ [c]) with (ws ++ [c]). now apply spec_lead. }
  induction s as [|c s IH]; intros ws1 ws2 H1 H2.
  - now rewrite !Hend.
  - destruct (is_space c) eqn:Hc.
    + cbn [spec_pieces]. rewrite Hc. apply IH;
        rewrite all_space_app; simpl; rewrite Hc; [now rewrite H1 | now rewrite H2].
    + now rewrite !Hvis.
Qed.

Lemma spec_pieces_trail (w : str) :
  all_space w = true ->
  forall s cur ws, all_space ws = true ->
    trim_blocks (spec_pieces cur ws (s ++ w)) = trim_blocks (spec_pieces cur ws s).
Proof.
  intros Hw.
  assert (Hend : forall cur ws, all_space ws = true ->
            trim_blocks (spec_pieces cur ws []) = trim_blocks [cur]).
  { intros cur ws Hws. cbn [spec_pieces]. destruct (has_nn ws).
    - unfold trim_blocks. simpl. now destruct (truthy (strip cur)).
    - unfold trim_blocks. simpl. now rewrite strip_trail. }
  induction s as [|c s IH]; intros cur ws Hws.
  - replace ([] ++ w) with (w ++ []) by (simpl; now rewrite app_nil_r).
    rewrite spec_pieces_blanks by exact Hw.
    rewrite !Hend; [reflexivity | assumption |].
    now rewrite all_space_app, Hws, Hw.
  - simpl. destruct (is_space c) eqn:Hc.
    + apply IH. rewrite all_space_app, Hws. simpl. now rewrite Hc.
    + destruct (has_nn ws).
      * rewrite trim_blocks_cons, (trim_blocks_cons cur (spec_pieces [c] [] s)).
        f_equal. now apply IH.
      * now apply IH.
Qed.

Lemma spec_pieces_strip (raw : str) :
  trim_blocks (spec_pieces [] [] (strip raw)) = trim_blocks (spec_pieces [] [] raw).
Proof.
  destruct (strip_decomp raw) as [t [w [Ht [Hw Heq]]]].
  assert (E : spec_pieces [] [] raw = spec_pieces [] [] ((t ++ strip raw) ++ w)).
  { now rewrite <- app_assoc, <- Heq. }
  rewrite E, (spec_pieces_trail w Hw (t ++ strip raw) [] []) by reflexivity.
  rewrite (spec_pieces_blanks t Ht).
  now apply spec_pieces_any_run.
Qed.

(** ** Blocks keep the order of the source *)

Lemma Laid_lead (w : str) (bs : list str) (s : str) :
  all_space w = true -> Laid bs s -> Laid bs (w ++ s).
Proof.
  intros Hw H. destruct H as [w0 H0 | w0 b bs s H0 H].
  - constructor. now rewrite all_space_app, Hw, H0.
  - rewrite app_assoc. constructor; [|exact H].
    now rewrite all_space_app, Hw, H0.
Qed.

Lemma Laid_trail (w : str) (bs : list str) (s : str) :
  all_space w = true -> Laid bs s -> Laid bs (s ++ w).
Proof.
  intros Hw H. induction H as [w0 H0 | w0 b bs s H0 H IH].
  - constructor. now rewrite all_space_app, H0, Hw.
  - rewrite <- !app_assoc. now constructor.
Qed.

Lemma str_ind2 (P : str -> Prop) :
  P [] -> (forall c, P [c]) ->
  (forall c d s, P s -> P (d :: s) -> P (c :: d :: s)) ->
  forall s, P s.
Proof.
  intros H0 H1 H2.
  assert (H : forall s, P s /\ forall c, P (c :: s)).
  { induction s as [|d s [IHa IHb]]; split; auto. }
  intros s. apply H.
Qed.

Lemma split_nn_not_nil (s : str) : forall cur, split_nn cur s <> [].
Proof.
  induction s as [| c | c d s IH0 IH1] using str_ind2; intros cur;
    [discriminate | discriminate |].
  cbn [split_nn]. destruct (is_nl c && is_nl d); [discriminate | apply IH1].
Qed.

Lemma split_nn_join (s : str) : forall cur, join_nn (split_nn cur s) = cur ++ s.
Proof.
  induction s as [| c | c d s IH0 IH1] using str_ind2; intros cur.
  - simpl. now rewrite app_nil_r.
  - reflexivity.
  - destruct (is_nl c && is_nl d) eqn:E.
    + apply andb_prop in E as [Hc Hd].
      rewrite split_nn_pair by assumption.
      apply is_nl_eq in Hc, Hd. subst c d.
      specialize (IH0 []). simpl app in IH0.
      cbn [join_nn]. destruct (split_nn [] s) as [|p ps] eqn:Es.
      * now apply split_nn_not_nil in Es.
      * now rewrite IH0.
    + rewrite split_nn_single by exact E. rewrite IH1. now rewrite <- app_assoc.
Qed.

Lemma Laid_pieces (pieces : list str) :
  Laid (trim_blocks pieces) (join_nn pieces).
Proof.
  induction pieces as [|p ps IH].
  - constructor. reflexivity.
  - rewrite trim_blocks_cons.
    destruct (strip_decomp p) as [t [w [Ht [Hw Hp]]]].
    destruct (strip p) as [|c r] eqn:Es.
    + (* a blank piece contributes no block *)
      assert (Hall : all_space p = true) by now apply strip_nil_all_space.
      rewrite (trim_blocks_space p Hall). simpl app.
      destruct ps as [|q ps]; [now constructor|].
      change (join_nn (p :: q :: ps)) with (p ++ [10; 10] ++ join_nn (q :: ps)).
      apply Laid_lead; [exact Hall|]. now apply (Laid_lead [10; 10]).
    + assert (Hb : trim_blocks [p] = [c :: r]).
      { unfold trim_blocks. simpl. now rewrite Es. }
      rewrite Hb. simpl app.
      destruct ps as [|q ps].
      * simpl join_nn. rewrite Hp. constructor; [exact Ht|].
        constructor. exact Hw.
      * change (join_nn (p :: q :: ps)) with (p ++ [10; 10] ++ join_nn (q :: ps)).
        rewrite Hp. rewrite <- !app_assoc.
        constructor; [exact Ht|].
        apply Laid_lead; [exact Hw|]. now apply (Laid_lead [10; 10]).
Qed.

(** *** The two equations behind the words of the specification *)

Lemma has_nn_app_false (a b : str) :
  has_nn (a ++ b) = false -> has_nn a = false /\ has_nn b = false.
Proof.
  induction a as [|x a IH]; intros H; [now split|].
  destruct a as [|y a].
  - split; [reflexivity|]. destruct b as [|z b]; [reflexivity|].
    change (has_nn ([x] ++ z :: b)) with ((is_nl x && is_nl z) || has_nn (z :: b)) in H.
    now apply orb_false_iff in H.
  - change (has_nn ((x :: y :: a) ++ b))
      with ((is_nl x && is_nl y) || has_nn ((y :: a) ++ b)) in H.
    apply orb_false_iff in H as [Hxy H]. destruct (IH H) as [Ha Hb].
    split; [|exact Hb].
    change (has_nn (x :: y :: a)) with ((is_nl x && is_nl y) || has_nn (y :: a)).
    now rewrite Hxy, Ha.
Qed.

Lemma has_nn_app_l (a b : str) : has_nn a = true -> has_nn (a ++ b) = true.
Proof.
  intros Ha. destruct (has_nn (a ++ b)) eqn:E; [reflexivity|].
  apply has_nn_app_false in E as [E _]. congruence.
Qed.

Lemma spec_pieces_end (cur ws : str) :
  all_space ws = true -> trim_blocks (spec_pieces cur ws []) = trim_blocks [cur].
Proof.
  intros Hws. cbn [spec_pieces]. destruct (has_nn ws).
  - unfold trim_blocks. simpl. now destruct (truthy (strip cur)).
  - unfold trim_blocks. simpl. now rewrite strip_trail.
Qed.

(** A text without two consecutive line breaks is one block. *)
Lemma spec_pieces_single (s : str) :
  forall cur ws, all_space ws = true -> has_nn (ws ++ s) = false ->
    trim_blocks (spec_pieces cur ws s) = trim_blocks [cur ++ ws ++ s].
Proof.
  induction s as [|c s IH]; intros cur ws Hws Hnn.
  - rewrite app_nil_r in *. cbn [spec_pieces]. now rewrite Hnn.
  - cbn [spec_pieces]. destruct (is_space c) eqn:Hc.
    + rewrite IH.
      * now rewrite <- !app_assoc.
      * rewrite all_space_app, Hws. simpl. now rewrite Hc.
      * now rewrite <- app_assoc.
    + destruct (has_nn_app_false _ _ Hnn) as [Hw Hcs]. rewrite Hw.
      rewrite IH; [now rewrite <- !app_assoc | reflexivity |].
      now destruct (has_nn_app_false [c] s Hcs).
Qed.

(** After a boundary run, the blocks are those of the rest of the text. *)
Lemma spec_pieces_after_boundary (v : str) :
  forall cur ws, all_space ws = true -> has_nn ws = true ->
    trim_blocks (spec_pieces cur ws v)
    = trim_blocks [cur] ++ trim_blocks (spec_pieces [] [] v).
Proof.
  induction v as [|c v IH]; intros cur ws Hws Hnn.
  - rewrite spec_pieces_end by exact Hws.
    rewrite (spec_pieces_end [] []) by reflexivity.
    now rewrite (trim_blocks_space [] eq_refl), app_nil_r.
  - cbn [spec_pieces]. destruct (is_space c) eqn:Hc.
    + rewrite IH.
      * f_equal. cbn [has_nn app]. apply spec_pieces_any_run; [reflexivity|].
        simpl. now rewrite Hc.
      * rewrite all_space_app, Hws. simpl. now rewrite Hc.
      * now apply has_nn_app_l.
    + rewrite Hnn. cbn [has_nn app]. apply trim_blocks_cons.
Qed.

Lemma spec_pieces_boundary (w v : str) :
  all_space w = true -> has_nn w = true ->
  forall u cur ws, all_space ws = true ->
    trim_blocks (spec_pieces cur ws (u ++ w ++ v))
    = trim_blocks (spec_pieces cur ws u) ++ trim_blocks (spec_pieces [] [] v).
Proof.
  intros Hw Hnn. induction u as [|c u IH]; intros cur ws Hws.
  - cbn [app]. rewrite spec_pieces_blanks by exact Hw.
    rewrite spec_pieces_after_boundary.
    + now rewrite spec_pieces_end.
    + now rewrite all_space_app, Hws, Hw.
    + destruct (has_nn (ws ++ w)) eqn:E; [reflexivity|].
      apply has_nn_app_false in E as [_ E]. congruence.
  - cbn [app spec_pieces]. destruct (is_space c) eqn:Hc.
    + apply IH. rewrite all_space_app, Hws. simpl. now rewrite Hc.
    + destruct (has_nn ws).
      * rewrite trim_blocks_cons, (trim_blocks_cons cur (spec_pieces [c] [] u)).
        rewrite <- app_assoc. f_equal. now apply IH.
      * now apply IH.
Qed.

(** C7 (paragraph splitter).  For every narration text the blocks computed by
    lines 41-43 of the source are the ones the specification describes:
    split on every whitespace run that contains two consecutive line breaks,
    trim each block, drop the blocks that are empty after trimming.  So a
    text without two consecutive line breaks is a single trimmed block (none
    when it is blank), and a whitespace run with two consecutive line breaks
    in it separates the blocks of what comes before from the blocks of what
    comes after.  The blocks lie in the text in the order of the result,
    with whitespace only around them, and no block is empty or made of
    whitespace only. *)
Theorem C7_paragraph_splitter (raw : str) :
  split_paragraphs raw = spec_split_paragraphs raw
  /\ (has_nn raw = false -> split_paragraphs raw = trim_blocks [raw])
  /\ (forall u w v,
        raw = u ++ w ++ v -> all_space w = true -> has_nn w = true ->
        split_paragraphs raw = split_paragraphs u ++ split_paragraphs v)
  /\ Laid (split_paragraphs raw) raw
  /\ Forall (fun b => b <> [] /\ all_space b = false) (split_paragraphs raw).
Proof.
  assert (Hcode : forall s, split_paragraphs s = trim_blocks (split_nn [] (strip s))).
  { intros s. unfold split_paragraphs. apply trim_blocks_comprehension. }
  assert (Hspec : forall s, split_paragraphs s = spec_split_paragraphs s).
  { intros s. rewrite Hcode. unfold spec_split_paragraphs.
    now rewrite split_nn_spec_pieces, spec_pieces_strip. }
  split; [|split; [|split; [|split]]].
  - apply Hspec.
  - intros Hnn. rewrite Hspec. unfold spec_split_paragraphs.
    now rewrite spec_pieces_single.
  - intros u w v -> Hw Hnn. rewrite !Hspec. unfold spec_split_paragraphs.
    now apply spec_pieces_boundary.
  - rewrite Hcode.
    destruct (strip_decomp raw) as [t [w [Ht [Hw Heq]]]].
    rewrite Heq at 2.
    apply Laid_lead; [exact Ht|]. apply Laid_trail; [exact Hw|].
    rewrite <- (split_nn_join (strip raw) []) at 2.
    apply Laid_pieces.
  - rewrite Hcode. unfold trim_blocks.
    apply List.Forall_forall. intros b Hb.
    apply filter_In in Hb as [Hin Hb].
    apply in_map_iff in Hin as [p [<- _]].
    apply truthy_true in Hb. split; [exact Hb|].
    now apply strip_not_all_space.
Qed.

(** ** Ordering of strings and of paths *)







Lemma str_eqb_refl (a : str) : str_eqb a a = true.
Proof. unfold str_eqb. now apply bool_decide_eq_true. Qed.

Lemma str_eqb_eq (a b : str) : str_eqb a b = true <-> a = b.
Proof. unfold str_eqb. apply bool_decide_eq_true. Qed.






(** ** [sorted] *)

Lemma insert_sorted_perm (x : Path) (l : list Path) :
  Permutation (insert_sorted x l) (x :: l).
Proof.
  induction l as [|y l IH]; simpl; [reflexivity|].
  destruct (path_ltb y x); [|reflexivity].
  rewrite IH. apply perm_swap.
Qed.

Lemma sorted_perm (l : list Path) : Permutation (sorted l) l.
Proof.
  induction l as [|x l IH]; simpl; [reflexivity|].
  rewrite insert_sorted_perm. now constructor.
Qed.

Section SortedSiblings.

Variable d : Path.



End SortedSiblings.

Lemma is_image_spec (p : Path) :
  is_image p = true <-> In (lower (suffix p)) image_exts.
Proof.
  unfold is_image. rewrite existsb_exists. split.
  - intros [e [He Heq]]. apply str_eqb_eq in Heq. now subst.
  - intros H. exists (lower (suffix p)). split; [exact H | apply str_eqb_refl].
Qed.

Lemma suffix_div (d : Path) (a : str) : suffix (path_div d a) = suffix {| anchor := []; parts := [a] |}.
Proof. unfold suffix, name, path_div. simpl. now rewrite last_last. Qed.


(** ** Rules for [hoare] *)

Lemma hoare_conseq {A} (P P' : State -> Prop) (Q Q' : Res A -> State -> Prop) (m : M A) :
  hoare P' m Q' -> (forall st, P st -> P' st) -> (forall r st, Q' r st -> Q r st) ->
  hoare P m Q.
Proof. intros H HP HQ st Hst. apply HQ, H, HP, Hst. Qed.

Lemma hoare_bind {A B} (P : State -> Prop) (Q : Res A -> State -> Prop)
    (R : Res B -> State -> Prop) (m : M A) (k : A -> M B) :
  hoare P m Q ->
  (forall a, hoare (Q (Val a)) (k a) R) ->
  (forall c st, Q (Exit c) st -> R (Exit c) st) ->
  (forall e st, Q (Raise e) st -> R (Raise e) st) ->
  hoare P (bind m k) R.
Proof.
  intros Hm Hk Hc He st Hst. specialize (Hm st Hst). unfold bind.
  destruct (m st) as [[a | c | e] st1]; simpl in *; auto.
  now apply Hk.
Qed.

(** Invariants: predicates that hold after a statement however it ends. *)
Lemma inv_bind {A B} (I : State -> Prop) (m : M A) (k : A -> M B) :
  hoare I m (fun _ => I) -> (forall a, hoare I (k a) (fun _ => I)) ->
  hoare I (bind m k) (fun _ => I).
Proof. intros Hm Hk. apply (hoare_bind I (fun _ => I)); auto. Qed.

Lemma inv_ret {A} (I : State -> Prop) (a : A) : hoare I (ret a) (fun _ => I).
Proof. intros st H. exact H. Qed.

Lemma inv_raise {A} (I : State -> Prop) (e : Exn) : hoare I (@raise A e) (fun _ => I).
Proof. intros st H. exact H. Qed.

Lemma inv_sys_exit {A} (I : State -> Prop) (c : Z) : hoare I (@sys_exit A c) (fun _ => I).
Proof. intros st H. exact H. Qed.

Lemma inv_stat (I : State -> Prop) (p : str) : hoare I (stat p) (fun _ => I).
Proof. intros st H. exact H. Qed.

Lemma inv_try_except {A} (I : State -> Prop) (body : M A) caught handler :
  hoare I body (fun _ => I) -> (forall e, hoare I (handler e) (fun _ => I)) ->
  hoare I (try_except body caught handler) (fun _ => I).
Proof.
  intros Hb Hh st Hst. specialize (Hb st Hst). unfold try_except.
  destruct (body st) as [[a | c | e] st1]; simpl in *; auto.
  destruct (caught e); simpl; auto. now apply Hh.
Qed.

Lemma inv_for_each (I : State -> Prop) (indices : list nat) (body : nat -> M unit) :
  (forall i, In i indices -> hoare I (body i) (fun _ => I)) ->
  hoare I (for_each indices body) (fun _ => I).
Proof.
  induction indices as [|i rest IH]; intros Hb; simpl.
  - apply inv_ret.
  - apply inv_bind; [apply Hb; now left|].
    intros _. apply IH. intros j Hj. apply Hb. now right.
Qed.

Lemma inv_emit (I : State -> Prop) ok e :
  kept_by_events I ok -> ok e -> hoare I (emit e) (fun _ => I).
Proof. intros HI He st H. now apply HI. Qed.

Lemma inv_store (I : State -> Prop) ok p d :
  kept_by_writes I ok -> ok p -> hoare I (store p d) (fun _ => I).
Proof. intros HI Hp st H. now apply HI. Qed.

Lemma inv_path_exists I p : hoare I (path_exists p) (fun _ => I).
Proof. intros st H. exact H. Qed.
Lemma inv_is_dir I p : hoare I (is_dir p) (fun _ => I).
Proof. intros st H. exact H. Qed.
Lemma inv_iterdir I p : hoare I (iterdir p) (fun _ => I).
Proof. intros st H. unfold iterdir, bind, stat. simpl. now destruct (fs st !! path_str p) as [[]|]. Qed.
Lemma inv_read_lines I p : hoare I (read_lines_with_paragraphs p) (fun _ => I).
Proof. intros st H. unfold read_lines_with_paragraphs, bind, stat. simpl.
  now destruct (fs st !! path_str p) as [[[]|]|]. Qed.
Lemma inv_get_wav_duration I p : hoare I (get_wav_duration p) (fun _ => I).
Proof. intros st H. unfold get_wav_duration, bind, stat. simpl.
  destruct (fs st !! path_str p) as [[[]|]|]; try exact H. now destruct (_ =? _). Qed.
Lemma inv_index {A} I (l : list A) i : hoare I (index l i) (fun _ => I).
Proof. intros st H. unfold index. now destruct (l !! i). Qed.

Lemma inv_mkdir (I : State -> Prop) ok p :
  kept_by_writes I ok -> ok (path_str p) -> hoare I (mkdir_exist_ok p) (fun _ => I).
Proof.
  intros HI Hp st H. unfold mkdir_exist_ok.
  destruct (fs st !! path_str p) as [[]|]; simpl; auto.
Qed.

Lemma inv_write_manifest (I : State -> Prop) ok n :
  kept_by_writes I ok -> ok filelist -> hoare I (write_manifest n) (fun _ => I).
Proof.
  intros HI Hp st H. unfold write_manifest, store.
  destruct (fs st !! filelist) as [[d | es] |]; simpl; try exact H; now apply HI.
Qed.

Ltac inv_go :=
  lazymatch goal with
  | |- hoare _ (bind _ _) _ => apply inv_bind; [inv_go | intros ?; inv_go]
  | |- hoare _ (ret _) _ => apply inv_ret
  | |- hoare _ (raise _) _ => apply inv_raise
  | |- hoare _ (sys_exit _) _ => apply inv_sys_exit
  | |- hoare _ (stat _) _ => apply inv_stat
  | |- hoare _ (path_exists _) _ => apply inv_path_exists
  | |- hoare _ (is_dir _) _ => apply inv_is_dir
  | |- hoare _ (iterdir _) _ => apply inv_iterdir
  | |- hoare _ (index _ _) _ => apply inv_index
  | |- hoare _ (read_lines_with_paragraphs _) _ => apply inv_read_lines
  | |- hoare _ (get_wav_duration _) _ => apply inv_get_wav_duration
  | |- hoare _ (try_except _ _ _) _ =>
      apply inv_try_except; [inv_go | intros ?; inv_go]
  | |- hoare _ (for_each _ _) _ => apply inv_for_each; intros ? ?; inv_go
  | |- hoare _ (print _) _ => unfold print; inv_go
  | |- hoare _ (if ?b then _ else _) _ => destruct b; inv_go
  | |- hoare _ (match ?x with _ => _ end) _ => destruct x; inv_go
  | |- hoare _ (main _ _) _ => unfold main; cbv zeta; inv_go
  | |- hoare _ (run_pipeline _ _ _ _) _ => unfold run_pipeline; inv_go
  | |- hoare _ (produce _ _ _ _) _ => unfold produce; inv_go
  | |- hoare _ (align _ _) _ => unfold align; cbv zeta; inv_go
  | |- hoare _ (make_clips _ _ _ _ _) _ => unfold make_clips; inv_go
  | |- hoare _ (process_item _ _ _ _ _) _ => unfold process_item; cbv zeta; inv_go
  | |- hoare _ (render_step _ _ _ _ _) _ => unfold render_step; inv_go
  | |- hoare _ (subprocess_run _ _ _) _ => unfold subprocess_run; inv_go
  | |- hoare _ (synthesize_voice _ _ _ _ _) _ => unfold synthesize_voice; cbv zeta; inv_go
  | _ => idtac
  end.

Lemma inv_concatenate (I : State -> Prop) env args :
  (forall e, is_tts_call e = false -> hoare I (emit e) (fun _ => I)) ->
  (forall d, hoare I (store (output args) d) (fun _ => I)) ->
  hoare I (concatenate env args) (fun _ => I).
Proof.
  intros He Hs st H. unfold concatenate.
  match goal with |- context [bind ?m ?k st] =>
    assert (Hh : hoare I (bind m k) (fun _ => I)) by (inv_go; auto) end.
  now apply Hh.
Qed.

(** Predicates that no event and no write can break are kept by every
    statement of the script. *)
Section Monotone.

Variable I : State -> Prop.
Hypothesis I_events : kept_by_events I (fun _ => True).
Hypothesis I_writes : kept_by_writes I (fun _ => True).

Ltac monotone :=
  inv_go;
  try (eapply inv_emit; [apply I_events | exact Logic.I]);
  try (eapply inv_store; [apply I_writes | exact Logic.I]);
  try (eapply inv_mkdir; [apply I_writes | exact Logic.I]);
  try (eapply inv_write_manifest; [apply I_writes | exact Logic.I]).

Lemma monotone_synthesize_voice env text out sp spd :
  hoare I (synthesize_voice env text out sp spd) (fun _ => I).
Proof. monotone. Qed.

Lemma monotone_render_step env frame audio d clip :
  hoare I (render_step env frame audio d clip) (fun _ => I).
Proof. monotone. Qed.

Lemma monotone_synthesis_step env args text audio :
  hoare I (synthesis_step env args text audio) (fun _ => I).
Proof. unfold synthesis_step. monotone. Qed.

Lemma monotone_process_item env args frames lines i :
  hoare I (process_item env args frames lines i) (fun _ => I).
Proof. monotone. apply monotone_synthesis_step. Qed.

Lemma monotone_concatenate env args :
  hoare I (concatenate env args) (fun _ => I).
Proof.
  apply inv_concatenate; intros.
  - eapply inv_emit; [apply I_events | exact Logic.I].
  - eapply inv_store; [apply I_writes | exact Logic.I].
Qed.

Lemma monotone_run_pipeline env args frames lines :
  hoare I (run_pipeline env args frames lines) (fun _ => I).
Proof.
  monotone; try apply monotone_synthesis_step; apply monotone_concatenate.
Qed.

End Monotone.

Lemma logged_since_events l0 (ok : Event -> Prop) :
  kept_by_events (logged_since l0 ok) ok.
Proof.
  intros st e He [evs [Hl Hok]]. exists (evs ++ [e]). simpl.
  rewrite Hl, <- app_assoc. split; [reflexivity|].
  apply Forall_app. split; [exact Hok | now constructor].
Qed.


Lemma logged_since_refl (ok : Event -> Prop) st : logged_since (log st) ok st.
Proof. exists []. now rewrite app_nil_r. Qed.

Lemma events_since_app st st' evs :
  log st' = log st ++ evs -> events_since st st' = evs.
Proof. intros H. unfold events_since. rewrite H. apply drop_app_length. Qed.

(** ** The synthesis cache *)

Lemma present_insert files p q n :
  present files p = true -> present (<[q := n]> files) p = true.
Proof.
  unfold present. rewrite !bool_decide_eq_true, lookup_insert_is_Some'. auto.
Qed.

Lemma cache_inv_events out :
  kept_by_events (cache_inv out) (fun e => is_tts_call_for out e = false).
Proof.
  intros st e He [Hp Hl]. split; [exact Hp|]. simpl.
  apply Forall_app. split; [exact Hl | now constructor].
Qed.

Lemma cache_inv_writes out : kept_by_writes (cache_inv out) (fun _ => True).
Proof. intros st p n _ [Hp Hl]. split; [now apply present_insert | exact Hl]. Qed.

Lemma cache_inv_synthesis_step env args out text audio :
  hoare (cache_inv out) (synthesis_step env args text audio) (fun _ => cache_inv out).
Proof.
  intros st Hst. unfold synthesis_step, path_exists, bind, stat, ret. simpl.
  destruct (bool_decide (is_Some (fs st !! path_str audio))) eqn:Hc; simpl; [exact Hst|].
  assert (Hne : str_eqb (path_str audio) out = false).
  { destruct (str_eqb (path_str audio) out) eqn:E; [|reflexivity].
    apply str_eqb_eq in E. destruct Hst as [Hp _]. unfold present in Hp.
    rewrite E, Hp in Hc. discriminate. }
  match goal with |- context [synthesize_voice ?e ?t ?a ?s ?sp st] =>
    assert (Hh : hoare (cache_inv out) (synthesize_voice e t a s sp)
                   (fun _ => cache_inv out)) end.
  { inv_go;
      try (eapply inv_emit; [apply cache_inv_events | simpl; first [exact Hne | reflexivity]]);
      try (eapply inv_store; [apply cache_inv_writes | exact I]). }
  specialize (Hh st Hst). simpl in Hh.
  now destruct (synthesize_voice _ _ _ _ _ st) as [[]].
Qed.

Lemma cache_inv_main env args out :
  hoare (cache_inv out) (main env args) (fun _ => cache_inv out).
Proof.
  inv_go;
    try (eapply inv_emit; [apply cache_inv_events | reflexivity]);
    try (eapply inv_store; [apply cache_inv_writes | exact I]);
    try (eapply inv_mkdir; [apply cache_inv_writes | exact I]);
    try (eapply inv_write_manifest; [apply cache_inv_writes | exact I]);
    try apply cache_inv_synthesis_step.
  all: apply inv_concatenate; intros;
    [ eapply inv_emit; [apply cache_inv_events |];
      match goal with e : Event |- _ => destruct e; simpl in *; congruence end
    | eapply inv_store; [apply cache_inv_writes | exact I] ].
Qed.

Lemma cached_quiet_events out l0 :
  kept_by_events (cached_quiet out l0) (fun e => is_tts_call e = false).
Proof.
  intros st e He [Hp Hl]. split; [exact Hp|]. now apply logged_since_events.
Qed.

Lemma cached_quiet_writes out l0 : kept_by_writes (cached_quiet out l0) (fun _ => True).
Proof. intros st p n _ [Hp Hl]. split; [now apply present_insert | exact Hl]. Qed.

Lemma cached_quiet_process_item env args frames lines i l0 :
  hoare (cached_quiet (path_str (audio_file (i + 1))) l0)
    (process_item env args frames lines i)
    (fun _ => cached_quiet (path_str (audio_file (i + 1))) l0).
Proof.
  inv_go;
    try (eapply inv_emit; [apply cached_quiet_events | reflexivity]);
    try (eapply inv_store; [apply cached_quiet_writes | exact I]).
  intros st Hst. unfold synthesis_step, path_exists, bind, stat, ret. simpl.
  destruct Hst as [Hp Hl]. unfold present in Hp. rewrite Hp. simpl. now split.
Qed.

Lemma synthesize_voice_first env text out sp spd st :
  exists b files evs,
    synthesize_voice env text out sp spd st
    = (Val b, {| fs := files;
                 log := log st ++ PostAudioQuery (path_str out) text sp :: evs |}).
Proof.
  unfold synthesize_voice, try_except, bind, emit, print, store, raise, ret. simpl.
  destruct (audio_query env (path_str out) text sp) as [[] [q|] |]; simpl;
    rewrite <- ?app_assoc; simpl; eauto.
  destruct (synthesis env (path_str out) _ sp) as [[] content |]; simpl;
    rewrite <- ?app_assoc; simpl; eauto.
  destruct (disk_write env (path_str out) content) as [|[partial|]]; simpl;
    rewrite <- ?app_assoc; simpl; eauto.
Qed.

(** C4 (synthesis cache).  When the audio file of item [i] is on disk at
    the start of the processing of item [i], that processing sends no
    request to the TTS service; when it is absent, the synthesis request for
    the text of the item is sent.  Over a whole run: an audio file that is on
    disk when the run starts is never synthesized again. *)
Theorem C4_synthesis_cache (env : Env) (args : Args) :
  (forall frames lines i st,
      present (fs st) (path_str (audio_file (i + 1))) = true ->
      Forall (fun e => is_tts_call e = false)
        (events_since st (snd (process_item env args frames lines i st))))
  /\ (forall frames lines i st frame text,
      frames !! i = Some frame -> lines !! i = Some text ->
      present (fs st) (path_str (audio_file (i + 1))) = false ->
      In (PostAudioQuery (path_str (audio_file (i + 1))) text (speaker args))
        (events_since st (snd (process_item env args frames lines i st))))
  /\ (forall files k,
      present files (path_str (audio_file k)) = true ->
      Forall (fun e => is_tts_call_for (path_str (audio_file k)) e = false)
        (log (snd (main env args (start files))))).
Proof.
  split; [|split].
  - intros frames lines i st Hp.
    destruct (cached_quiet_process_item env args frames lines i (log st) st)
      as [_ [evs [Hlog Hev]]].
    { split; [exact Hp | apply logged_since_refl]. }
    now rewrite (events_since_app _ _ _ Hlog).
  - intros frames lines i st frame text Hf Ht Hp.
    set (audio := audio_file (i + 1)) in *.
    set (ev := PostAudioQuery (path_str audio) text (speaker args)).
    set (J := fun s : State => exists evs, log s = log st ++ evs /\ In ev evs).
    assert (Hev : kept_by_events J (fun _ => True)).
    { intros s e _ [evs [Hl Hin]]. exists (evs ++ [e]). simpl.
      rewrite Hl, <- app_assoc. split; [reflexivity | apply in_or_app; now left]. }
    assert (Hwr : kept_by_writes J (fun _ => True)).
    { intros s q n _ H. exact H. }
    assert (HJ : J (snd (process_item env args frames lines i st))).
    { unfold process_item, index. rewrite Hf, Ht. fold audio.
      unfold bind at 1 2 3. unfold ret at 1 2. unfold emit at 1. cbn beta iota.
      unfold bind at 1. unfold synthesis_step at 1. unfold bind at 1.
      unfold path_exists at 1, bind at 1, stat at 1, ret at 1. cbn [fs log].
      unfold present in Hp. rewrite Hp. cbn [negb]. unfold bind at 1.
      destruct (synthesize_voice_first env text audio (speaker args) (speed args)
                  {| fs := fs st; log := log st ++ [Iteration i frame text] |})
        as [b [files [evs Hs]]].
      rewrite Hs. cbn [ret].
      match goal with |- J (snd (?m ?s)) =>
        assert (Hh : hoare J m (fun _ => J)) end.
      { apply inv_bind; [apply inv_get_wav_duration|].
        intros d. now apply monotone_render_step. }
      apply Hh. simpl. exists (Iteration i frame text :: ev :: evs).
      rewrite <- app_assoc. split; [reflexivity | right; now left]. }
    destruct HJ as [evs [Hl Hin]]. now rewrite (events_since_app _ _ _ Hl).
  - intros files k Hp.
    apply (cache_inv_main env args (path_str (audio_file k)) (start files)).
    split; [exact Hp | constructor].
Qed.

(** ** The steps of one item, in closed form *)

Lemma get_wav_duration_run (path : Path) (st : State) :
  get_wav_duration path st
  = (match fs st !! path_str path with
     | None => Raise FileNotFoundError
     | Some (Dir _) => Raise IsADirectoryError
     | Some (File (Wav frames rate)) =>
         if rate =? 0 then Raise ZeroDivisionError else Val (truediv frames rate)
     | Some (File _) => Raise NotAWave
     end, st).
Proof.
  unfold get_wav_duration, bind, stat, raise, ret. simpl.
  destruct (fs st !! path_str path) as [[[] |] |]; try reflexivity.
  now destruct (_ =? _).
Qed.

Lemma render_step_run (env : Env) (frame audio : Path) (d : float) (clip : Path)
    (st : State) :
  let call := RunRender (path_str frame) (path_str audio) d (path_str clip) in
  let failed := Print (MsgRenderFailed (path_str clip) CalledProcessError) in
  render_step env frame audio d clip st
  = match ffmpeg_render env (path_str frame) (path_str audio) d (path_str clip) with
    | ProcOk =>
        (Val tt, {| fs := <[path_str clip := File Blob]> (fs st);
                    log := log st ++ [call] |})
    | ProcFailed true =>
        (Val tt, {| fs := <[path_str clip := File Blob]> (fs st);
                    log := log st ++ [call; failed] |})
    | ProcFailed false =>
        (Val tt, {| fs := fs st; log := log st ++ [call; failed] |})
    | ProcNotLaunched =>
        (Raise FileNotFoundError, {| fs := fs st; log := log st ++ [call] |})
    end.
Proof.
  unfold render_step, try_except, subprocess_run, bind, print, emit, store, raise.
  simpl. destruct (ffmpeg_render env _ _ d _) as [|[]|]; simpl;
    rewrite <- ?app_assoc; reflexivity.
Qed.

Lemma audio_file_str (k : nat) :
  path_str (audio_file k)
  = lit "audio/line" ++ fmt_03d (N.of_nat k) ++ lit ".wav".
Proof. reflexivity. Qed.

Lemma clip_file_str (k : nat) :
  path_str (clip_file k)
  = lit "clips/clip" ++ fmt_03d (N.of_nat k) ++ lit ".mp4".
Proof. reflexivity. Qed.

Lemma audio_clip_distinct (j k : nat) :
  path_str (audio_file j) <> path_str (clip_file k).
Proof. rewrite audio_file_str, clip_file_str. discriminate. Qed.

Lemma clip_not_dir (k : nat) :
  path_str (clip_file k) <> path_str audio_dir
  /\ path_str (clip_file k) <> path_str video_dir.
Proof. rewrite clip_file_str. split; discriminate. Qed.

Lemma audio_not_dir (k : nat) :
  path_str (audio_file k) <> path_str audio_dir
  /\ path_str (audio_file k) <> path_str video_dir.
Proof. rewrite audio_file_str. split; discriminate. Qed.

Lemma filelist_distinct (k : nat) :
  filelist <> path_str (clip_file k) /\ filelist <> path_str (audio_file k)
  /\ filelist <> path_str audio_dir /\ filelist <> path_str video_dir.
Proof. rewrite clip_file_str, audio_file_str. repeat split; discriminate. Qed.

(** ** The manifest *)

Lemma manifest_lines_filter (files : gmap str Node) (indices : list nat) :
  manifest_lines files indices
  = List.map (fun i => manifest_line (clip_file i))
      (List.filter (fun i => present files (path_str (clip_file i))) indices).
Proof.
  induction indices as [|i rest IH]; simpl; [reflexivity|].
  unfold present at 1. destruct (bool_decide _); simpl; now rewrite IH.
Qed.


Lemma align_run (frames : list Path) (lines : list str) (st : State) :
  let n := Nat.min (length frames) (length lines) in
  align frames lines st
  = (Val n,
     {| fs := fs st;
        log := log st ++
          (if (length frames <? length lines)%nat
           then [Print (MsgImagesShort (length frames) (length lines))]
           else if (length lines <? length frames)%nat
           then [Print (MsgLinesShort (length frames) (length lines))]
           else []) |}).
Proof.
  intros n. unfold align, bind, print, emit, ret. fold n. simpl.
  destruct (Nat.ltb_spec (length frames) (length lines)) as [H1 | H1].
  - replace (n <? length lines)%nat with true; [reflexivity|].
    symmetry. apply Nat.ltb_lt. lia.
  - replace (n <? length lines)%nat with false by (symmetry; apply Nat.ltb_ge; lia).
    destruct (Nat.ltb_spec (length lines) (length frames)) as [H2 | H2].
    + replace (n <? length frames)%nat with true; [reflexivity|].
      symmetry. apply Nat.ltb_lt. lia.
    + replace (n <? length frames)%nat with false by (symmetry; apply Nat.ltb_ge; lia).
      destruct st. simpl. now rewrite app_nil_r.
Qed.

Lemma write_manifest_ok (n : nat) (st : State) :
  (forall es, fs st !! filelist <> Some (Dir es)) ->
  write_manifest n st
  = (Val tt,
     {| fs := <[filelist := File (Text (concat (manifest_lines (fs st) (seq 1 n))))]>
                (fs st);
        log := log st |}).
Proof.
  intros H. unfold write_manifest, store.
  destruct (fs st !! filelist) as [[d | es] |] eqn:E; try reflexivity.
  now destruct (H es).
Qed.



Lemma synthesis_step_run (env : Env) (args : Args) (text : str) (audio : Path)
    (st : State) :
  exists files evs,
    synthesis_step env args text audio st
    = (Val tt, {| fs := files; log := log st ++ evs |})
    /\ Forall (synthesis_event text) evs
    /\ (present (fs st) (path_str audio) = true -> files = fs st /\ evs = [])
    /\ (forall p, p <> path_str audio -> files !! p = fs st !! p).
Proof.
  unfold synthesis_step, path_exists, bind, stat, ret. cbn [fst snd negb].
  unfold present. destruct (bool_decide (is_Some (fs st !! path_str audio))) eqn:Hc.
  - exists (fs st), []. cbn [negb]. rewrite app_nil_r. destruct st. simpl. auto.
  - cbn [negb].
    assert (Hq : forall o t z, synthesis_event text (PostAudioQuery o t z)) by (now left).
    assert (Hs : forall o q z, synthesis_event text (PostSynthesis o q z)) by (now left).
    assert (Hf : forall err, synthesis_event text (Print (MsgSynthFailed (firstn 30 text) err))).
    { intros err. right. now exists err. }
    unfold synthesize_voice, try_except, bind, print, emit, store, raise, ret.
    cbn [fst snd fs log].
    destruct (audio_query env (path_str audio) text (speaker args)) as [[] [q|] |];
      cbn [fst snd fs log]; rewrite <- ?app_assoc; cbn [app];
      try (eexists _, _; split; [reflexivity|]; split; [repeat first [apply List.Forall_nil | apply List.Forall_cons; [solve [auto]|]]|];
           split; [discriminate | reflexivity]).
    destruct (synthesis env (path_str audio) _ (speaker args)) as [[] content |];
      cbn [fst snd fs log]; rewrite <- ?app_assoc; cbn [app];
      try (eexists _, _; split; [reflexivity|]; split; [repeat first [apply List.Forall_nil | apply List.Forall_cons; [solve [auto]|]]|];
           split; [discriminate | reflexivity]).
    destruct (disk_write env (path_str audio) content) as [|[partial|]];
      cbn [fst snd fs log]; rewrite <- ?app_assoc; cbn [app];
      (eexists _, _; split; [reflexivity|]; split; [repeat first [apply List.Forall_nil | apply List.Forall_cons; [solve [auto]|]]|];
       split; [discriminate | intros p Hp; now rewrite ?lookup_insert_ne]).
Qed.

Lemma process_item_run (env : Env) (args : Args) (frames : list Path)
    (lines : list str) (i : nat) (frame : Path) (text : str) (st : State) :
  frames !! i = Some frame -> lines !! i = Some text ->
  let audio := audio_file (i + 1) in
  exists files evs,
    process_item env args frames lines i st
    = (let! duration := get_wav_duration audio in
       render_step env frame audio duration (clip_file (i + 1)))
        {| fs := files; log := log st ++ Iteration i frame text :: evs |}
    /\ Forall (synthesis_event text) evs
    /\ (present (fs st) (path_str audio) = true -> files = fs st /\ evs = [])
    /\ (present (fs st) (path_str audio) = false ->
        exists evs', evs = PostAudioQuery (path_str audio) text (speaker args) :: evs')
    /\ (forall p, p <> path_str audio -> files !! p = fs st !! p).
Proof.
  intros Hf Ht audio.
  destruct (synthesis_step_run env args text audio
              {| fs := fs st; log := log st ++ [Iteration i frame text] |})
    as [files [evs [Hrun [Hev [Hc Hfr]]]]].
  exists files, evs. split; [|split; [|split; [|split]]]; auto.
  - unfold process_item, index. rewrite Hf, Ht. fold audio.
    unfold bind at 1 2 3. unfold ret at 1 2. unfold emit at 1. cbn beta iota.
    unfold bind at 1. rewrite Hrun. cbn [log]. now rewrite <- app_assoc.
  - intros Hp. clear Hc Hfr Hev.
    unfold synthesis_step, path_exists, bind, stat, ret in Hrun.
    cbn [fst snd fs log negb] in Hrun. unfold present in Hp. rewrite Hp in Hrun.
    cbn [negb] in Hrun.
    destruct (synthesize_voice_first env text audio (speaker args) (speed args)
                {| fs := fs st; log := log st ++ [Iteration i frame text] |})
      as [b [files' [evs' Hs]]].
    rewrite Hs in Hrun. cbn [log] in Hrun.
    injection Hrun as _ Hlog. apply app_inv_head in Hlog. now exists evs'.
Qed.

(** ** The duration of a clip *)

Lemma synthesis_event_not_render (text : str) (e : Event) :
  synthesis_event text e -> is_render_call e = false.
Proof. intros [H | [err ->]]; [now destruct e | reflexivity]. Qed.

(** C5, as the claim states it, fails: the audio of one frame at 24000 Hz is
    probed as the double nearest to 1/24000, which is not 1/24000. *)
Lemma C5_quotient_is_rounded :
  get_wav_duration (audio_file 1) (start one_frame)
  = (Val (truediv 1 24000), start one_frame)
  /\ float_value (truediv 1 24000)
     = Some (6148914691236517 # 147573952589676412928)%Q
  /\ ~ (6148914691236517 # 147573952589676412928 == 1 # 24000)%Q.
Proof.
  split; [|split].
  - vm_compute. reflexivity.
  - vm_compute. reflexivity.
  - unfold Qeq. simpl. lia.
Qed.

(** C5 (amended).  For an audio file whose header reports [F] frames at the
    rate [R], not zero, the probe returns the double-precision quotient of
    [F] by [R] as Python computes [F / R]: rounded once, to the nearest
    double, and so equal to F/R when that is a double (72000 frames at 24000
    Hz last 3 seconds exactly).  No other rounding takes place, and the
    rendering of the item is called with that very value as its duration. *)
Theorem C5_probed_duration (env : Env) (args : Args) :
  (forall path F R st,
      fs st !! path_str path = Some (File (Wav F R)) -> R <> 0 ->
      get_wav_duration path st = (Val (truediv F R), st))
  /\ (forall frames lines i frame text st F R,
      frames !! i = Some frame -> lines !! i = Some text ->
      let audio := path_str (audio_file (i + 1)) in
      let st' := snd (process_item env args frames lines i st) in
      fs st' !! audio = Some (File (Wav F R)) -> R <> 0 ->
      In (RunRender (path_str frame) audio (truediv F R) (path_str (clip_file (i + 1))))
        (events_since st st')
      /\ forall f a d c,
          In (RunRender f a d c) (events_since st st') -> d = truediv F R)
  /\ float_value (truediv 72000 24000) = Some (6755399441055744 # 2251799813685248)%Q
  /\ (6755399441055744 # 2251799813685248 == 3)%Q.
Proof.
  split; [|split; [|split]].
  - intros path F R st Hf HR. rewrite get_wav_duration_run, Hf.
    apply N.eqb_neq in HR. now rewrite HR.
  - intros frames lines i frame text st F R Hf Ht audio st' Hwav HR.
    destruct (process_item_run env args frames lines i frame text st Hf Ht)
      as [files [evs [Hrun [Hev _]]]].
    assert (Hnr : forall f a d c, ~ In (RunRender f a d c) (Iteration i frame text :: evs)).
    { intros f a d c [H | H]; [discriminate|].
      apply (proj1 (List.Forall_forall _ _) Hev) in H.
      now apply synthesis_event_not_render in H. }
    subst st'. rewrite Hrun in *. clear Hrun. fold audio in Hwav |- *.
    unfold bind in *. rewrite get_wav_duration_run in *. cbn [fs log] in *.
    fold audio in Hwav |- *.
    destruct (files !! audio) as [[[t | F' R' |] | es] |] eqn:E;
      cbn [snd fs] in Hwav; try congruence.
    destruct (R' =? 0) eqn:HR'.
    { cbn [snd fs] in Hwav. rewrite E in Hwav. injection Hwav as -> ->.
      apply N.eqb_eq in HR'. contradiction. }
    rewrite render_step_run in *. cbn [fs log] in *.
    assert (Hne : path_str (clip_file (i + 1)) <> audio) by
      (intros H; now apply (audio_clip_distinct (i + 1) (i + 1))).
    destruct (ffmpeg_render env _ _ _ _) as [|[]|]; cbn [snd fs log] in *;
      rewrite ?lookup_insert_ne in Hwav by exact Hne;
      rewrite E in Hwav; injection Hwav as -> ->;
      (erewrite events_since_app; [|cbn [log]; rewrite <- app_assoc; reflexivity]);
      (split; [apply in_or_app; right; now left|]);
      intros f a d c Hin; apply in_app_or in Hin as [Hin | Hin];
      try (now apply Hnr in Hin);
      repeat (destruct Hin as [Hin | Hin]; [now inversion Hin|]); now destruct Hin.
  - vm_compute. reflexivity.
  - reflexivity.
Qed.

(** ** The files of the items are told apart by their names *)

Lemma uint_digits_inj (u : Decimal.uint) :
  forall v, uint_digits u = uint_digits v -> u = v.
Proof.
  induction u; intros v H; destruct v; simpl in H;
    try discriminate; try reflexivity; injection H as H; f_equal; auto.
Qed.

Lemma uint_digits_pad (k : nat) (u : Decimal.uint) :
  uint_digits (Nat.iter k Decimal.D0 u) = repeat 48 k ++ uint_digits u.
Proof. induction k as [|k IH]; simpl; [reflexivity | now rewrite IH]. Qed.

Lemma of_uint_pad (k : nat) (u : Decimal.uint) :
  N.of_uint (Nat.iter k Decimal.D0 u) = N.of_uint u.
Proof. induction k as [|k IH]; simpl; [reflexivity | exact IH]. Qed.

Lemma fmt_03d_inj (n m : N) : fmt_03d n = fmt_03d m -> n = m.
Proof.
  unfold fmt_03d, decimal. rewrite <- !uint_digits_pad. intros H.
  apply uint_digits_inj in H. apply (f_equal N.of_uint) in H.
  now rewrite !of_uint_pad, !DecimalN.Unsigned.of_to in H.
Qed.

Lemma clip_file_inj (j k : nat) :
  path_str (clip_file j) = path_str (clip_file k) -> j = k.
Proof.
  rewrite !clip_file_str. intros H.
  apply app_inv_head, app_inv_tail, fmt_03d_inj in H. lia.
Qed.

Lemma audio_file_inj (j k : nat) :
  path_str (audio_file j) = path_str (audio_file k) -> j = k.
Proof.
  rewrite !audio_file_str. intros H.
  apply app_inv_head, app_inv_tail, fmt_03d_inj in H. lia.
Qed.

(** ** What ends up in the manifest *)

(** An invariant of the two directories and of the loop: one that no event
    breaks, that writes of audio files and of directories keep, and that the
    rendering step keeps. *)
Lemma probed_get_wav_duration (I : State -> Prop) (p : Path) :
  hoare I (get_wav_duration p)
    (fun r st => I st /\ match r with
                         | Val d => exists F R, R <> 0 /\ d = truediv F R
                         | _ => True
                         end).
Proof.
  intros st H. rewrite get_wav_duration_run. cbn [fst snd].
  destruct (fs st !! path_str p) as [[[t | F R |] | es] |]; auto.
  destruct (R =? 0) eqn:HR; [auto|].
  split; [exact H|]. exists F, R. split; [now apply N.eqb_neq | reflexivity].
Qed.

Lemma inv_make_clips (I : State -> Prop) (ok : str -> Prop)
    (env : Env) (args : Args) (frames : list Path) (lines : list str) (n : nat) :
  kept_by_events I (fun _ => True) ->
  kept_by_writes I ok ->
  ok (path_str audio_dir) -> ok (path_str video_dir) ->
  (forall k, ok (path_str (audio_file k))) ->
  (forall frame k F R, R <> 0 ->
      hoare I (render_step env frame (audio_file k) (truediv F R) (clip_file k))
        (fun _ => I)) ->
  hoare I (make_clips env args frames lines n) (fun _ => I).
Proof.
  intros Hev Hwr Ha Hv Hau Hr. unfold make_clips.
  apply inv_bind; [eapply inv_mkdir; [apply Hwr | assumption]|]. intros _.
  apply inv_bind; [eapply inv_mkdir; [apply Hwr | assumption]|]. intros _.
  apply inv_for_each. intros i _. unfold process_item.
  apply inv_bind; [apply inv_index|]. intros frame.
  apply inv_bind; [apply inv_index|]. intros text.
  apply inv_bind; [eapply inv_emit; [apply Hev | exact Logic.I]|]. intros _.
  apply inv_bind.
  - unfold synthesis_step. inv_go;
      try (eapply inv_emit; [apply Hev | exact Logic.I]);
      try (eapply inv_store; [apply Hwr | apply Hau]).
  - intros _. eapply hoare_bind; [apply probed_get_wav_duration | | |].
    + intros d st [HI [F [R [HR ->]]]]. now apply Hr.
    + intros c st [HI _]. exact HI.
    + intros e st [HI _]. exact HI.
Qed.

Lemma present_insert_ne (files : gmap str Node) (p q : str) (n : Node) :
  p <> q -> present (<[q := n]> files) p = present files p.
Proof. intros H. unfold present. now rewrite lookup_insert_ne. Qed.

Lemma render_wrote_later (env : Env) (frames : list Path) (k : nat) (st st' : State) :
  render_wrote env frames k st ->
  fs st' !! path_str (audio_file k) = fs st !! path_str (audio_file k) ->
  (exists evs, log st' = log st ++ evs) ->
  render_wrote env frames k st'.
Proof.
  intros (frame & F & R & Hk & Hf & HR & Hwav & Hin & Hw) Hsame [evs Hlog].
  exists frame, F, R. rewrite Hsame, Hlog.
  repeat split; try assumption. apply in_or_app. now left.
Qed.

(** The invariant is kept as long as no clip file appears, the audio files
    on disk stay as they are, and the log only grows. *)
Lemma clips_accounted_later (env : Env) (frames : list Path) (files : gmap str Node)
    (st st' : State) :
  clips_accounted env frames files st ->
  (forall k, present (fs st') (path_str (clip_file k))
             = present (fs st) (path_str (clip_file k))) ->
  (forall k, is_Some (fs st !! path_str (audio_file k)) ->
             fs st' !! path_str (audio_file k) = fs st !! path_str (audio_file k)) ->
  (exists evs, log st' = log st ++ evs) ->
  clips_accounted env frames files st'.
Proof.
  intros H Hclip Haudio Hlog k Hk. rewrite Hclip in Hk.
  destruct (H k Hk) as [Hf | Hw]; [now left | right].
  apply (render_wrote_later env frames k st st' Hw); [|exact Hlog].
  apply Haudio. destruct Hw as (frame & F & R & _ & _ & _ & Hwav & _).
  rewrite Hwav. eauto.
Qed.

Lemma clips_accounted_events env frames files :
  kept_by_events (clips_accounted env frames files) (fun _ => True).
Proof.
  intros st e _ H. apply (clips_accounted_later env frames files st); auto.
  now exists [e].
Qed.

Lemma clips_accounted_writes env frames files :
  kept_by_writes (clips_accounted env frames files)
    (fun p => (forall k, p <> path_str (clip_file k))
              /\ (forall k, p <> path_str (audio_file k))).
Proof.
  intros st p n [Hc Ha] H. apply (clips_accounted_later env frames files st); auto.
  - intros k. cbn [fs]. apply present_insert_ne. intros E. now apply (Hc k).
  - intros k _. cbn [fs]. apply lookup_insert_ne. apply Ha.
  - exists []. cbn [log]. now rewrite app_nil_r.
Qed.

Lemma clips_accounted_process_item env args frames lines files i :
  hoare (clips_accounted env frames files) (process_item env args frames lines i)
    (fun _ => clips_accounted env frames files).
Proof.
  intros st H.
  destruct (frames !! i) as [frame|] eqn:Hf;
    [destruct (lines !! i) as [text|] eqn:Ht|];
    try (unfold process_item, index, bind, raise, ret; rewrite Hf, ?Ht; exact H).
  destruct (process_item_run env args frames lines i frame text st Hf Ht)
    as (files' & evs & Hrun & _ & Hcached & _ & Hother).
  rewrite Hrun. clear Hrun.
  set (audio := path_str (audio_file (i + 1))) in *.
  set (clip := path_str (clip_file (i + 1))).
  set (st1 := {| fs := files'; log := log st ++ Iteration i frame text :: evs |}).
  assert (Hne : clip <> audio)
    by (intros E; now apply (audio_clip_distinct (i + 1) (i + 1))).
  assert (H1 : clips_accounted env frames files st1).
  { apply (clips_accounted_later env frames files st); auto.
    - intros k. unfold present. cbn [fs st1]. rewrite Hother; [reflexivity|].
      intros E. now apply (audio_clip_distinct (i + 1) k).
    - intros k Hk. cbn [fs st1].
      destruct (decide (path_str (audio_file k) = audio)) as [E | E].
      + rewrite E in *. destruct Hcached as [-> _]; [|reflexivity].
        unfold present. now apply bool_decide_eq_true.
      + now apply Hother.
    - now eexists. }
  unfold bind. rewrite get_wav_duration_run. cbn [fs st1]. fold st1. fold audio.
  destruct (files' !! audio) as [[[t | F R |] | es] |] eqn:Ewav; cbn [snd]; try exact H1.
  destruct (R =? 0) eqn:HR; cbn [snd]; [exact H1|]. apply N.eqb_neq in HR.
  rewrite render_step_run. fold audio clip.
  set (call := RunRender (path_str frame) audio (truediv F R) clip).
  assert (Hquiet : forall evs',
             clips_accounted env frames files
               {| fs := fs st1; log := log st1 ++ evs' |}).
  { intros evs'. apply (clips_accounted_later env frames files st1); auto.
    now eexists. }
  assert (Hnew : forall evs',
             ffmpeg_render env (path_str frame) audio (truediv F R) clip = ProcOk
             \/ ffmpeg_render env (path_str frame) audio (truediv F R) clip
                = ProcFailed true ->
             clips_accounted env frames files
               {| fs := <[clip := File Blob]> (fs st1);
                  log := log st1 ++ call :: evs' |}).
  { intros evs' Hw k Hk. cbn [fs] in Hk.
    destruct (decide (path_str (clip_file k) = clip)) as [E | E].
    - apply clip_file_inj in E. subst k. right. exists frame, F, R.
      split; [lia|]. split; [now rewrite Nat.add_sub|]. split; [exact HR|].
      cbn [fs log]. split; [now rewrite lookup_insert_ne|].
      split; [apply in_or_app; right; now left | exact Hw].
    - rewrite present_insert_ne in Hk by exact E.
      destruct (H1 k Hk) as [Hstale | Hw']; [now left | right].
      apply (render_wrote_later env frames k st1); [exact Hw' | | now eexists].
      cbn [fs]. apply lookup_insert_ne. intros E'.
      now apply (audio_clip_distinct k (i + 1)). }
  destruct (ffmpeg_render env (path_str frame) audio (truediv F R) clip)
    as [|[]|] eqn:Eb; cbn [snd].
  - apply Hnew. now left.
  - apply Hnew. now right.
  - apply Hquiet.
  - apply Hquiet.
Qed.

Lemma clips_accounted_make_clips env args frames lines n files :
  hoare (clips_accounted env frames files) (make_clips env args frames lines n)
    (fun _ => clips_accounted env frames files).
Proof.
  assert (Hdir : forall p, p = path_str audio_dir \/ p = path_str video_dir ->
             (forall k, p <> path_str (clip_file k))
             /\ (forall k, p <> path_str (audio_file k))).
  { intros p Hp. split; intros k E; subst p;
      destruct (clip_not_dir k), (audio_not_dir k); destruct Hp; congruence. }
  unfold make_clips.
  apply inv_bind;
    [eapply inv_mkdir; [apply clips_accounted_writes | apply Hdir; now left]|].
  intros _.
  apply inv_bind;
    [eapply inv_mkdir; [apply clips_accounted_writes | apply Hdir; now right]|].
  intros _.
  apply inv_for_each. intros i _. apply clips_accounted_process_item.
Qed.

Lemma filelist_kept_make_clips env args frames lines n (node : option Node) :
  hoare (fun st => fs st !! filelist = node) (make_clips env args frames lines n)
    (fun _ st => fs st !! filelist = node).
Proof.
  assert (Hev : kept_by_events (fun st => fs st !! filelist = node) (fun _ => True)).
  { intros st e _ H. exact H. }
  assert (Hwr : kept_by_writes (fun st => fs st !! filelist = node)
                  (fun p => p <> filelist)).
  { intros st p n' Hp H. simpl. now rewrite lookup_insert_ne. }
  apply (inv_make_clips _ (fun p => p <> filelist)); [exact Hev | exact Hwr | | | |].
  - intros E. destruct (filelist_distinct 0) as (_ & _ & H & _). congruence.
  - intros E. destruct (filelist_distinct 0) as (_ & _ & _ & H). congruence.
  - intros k E. destruct (filelist_distinct k) as (_ & H & _). congruence.
  - intros frame k F R _. unfold render_step. inv_go;
      try (eapply inv_emit; [apply Hev | exact Logic.I]);
      try (eapply inv_store; [apply Hwr |]); intros E;
      destruct (filelist_distinct k) as (H & _); congruence.
Qed.

(** C6, as the claim states it, fails: with the clip of item 1 left on disk
    by an earlier run, a run in which the rendering of item 1 fails still
    lists that clip in the manifest. *)
Lemma C6_stale_clip_listed :
  let done := main render_fails demo_args (start with_stale_clip) in
  manifest (snd done) = Some (manifest_line (clip_file 1))
  /\ In (Print (MsgRenderFailed (path_str (clip_file 1)) CalledProcessError))
       (log (snd done))
  /\ In (RunRender (path_str (path_div (images demo_args) (lit "a.png")))
           (path_str (audio_file 1)) 1 (path_str (clip_file 1)))
       (log (snd done)).
Proof.
  split; [|split].
  - vm_compute. reflexivity.
  - vm_compute. right. right. now left.
  - vm_compute. right. now left.
Qed.

Lemma manifest_accounted (env : Env) (frames : list Path) (files : gmap str Node)
    (n : nat) (st1 : State) :
  clips_accounted env frames files st1 ->
  let st2 :=
    {| fs := <[filelist := File (Text (concat (manifest_lines (fs st1) (seq 1 n))))]>
               (fs st1);
       log := log st1 |} in
  let ks :=
    List.filter (fun k => present (fs st2) (path_str (clip_file k))) (seq 1 n) in
  manifest st2 = Some (concat (List.map (fun k => manifest_line (clip_file k)) ks))
  /\ forall k, In k ks ->
       present files (path_str (clip_file k)) = true \/ render_wrote env frames k st2.
Proof.
  intros Hacc1 st2 ks.
  assert (Hacc2 : clips_accounted env frames files st2).
  { apply clips_accounted_writes; [|exact Hacc1].
    split; intros k E; destruct (filelist_distinct k) as (H1 & H2 & _); congruence. }
  assert (Hks : ks = List.filter (fun k => present (fs st1) (path_str (clip_file k)))
                       (seq 1 n)).
  { apply filter_ext. intros k. apply present_insert_ne.
    intros E. destruct (filelist_distinct k) as [H _]. congruence. }
  split.
  - unfold manifest. cbn [fs st2].
    now rewrite lookup_insert_eq, manifest_lines_filter, Hks.
  - intros k Hk. apply filter_In in Hk as [_ Hk]. now apply Hacc2.
Qed.

(** C6 (amended).  When the manifest is written, it lists a clip only if
    its file is on disk at that moment; and such a file was either on disk
    before the run, or is the work of this run: the audio file of the item
    is on disk and playable, and this run rendered the image of that very
    item with that audio file and the duration probed from it, a rendering
    that ended with exit status 0 or with a failure that left an output.
    When lines 75-116 do not end normally, [filelist.txt] is left as it
    was. *)
Theorem C6_manifest_eligibility (env : Env) (args : Args) (frames : list Path)
    (lines : list str) (files : gmap str Node) :
  let n := Nat.min (length frames) (length lines) in
  let done := produce env args frames lines (start files) in
  let ks :=
    List.filter (fun k => present (fs (snd done)) (path_str (clip_file k))) (seq 1 n) in
  (fst done = Val tt ->
     manifest (snd done)
     = Some (concat (List.map (fun k => manifest_line (clip_file k)) ks))
     /\ forall k, In k ks ->
          present files (path_str (clip_file k)) = true
          \/ render_wrote env frames k (snd done))
  /\ (fst done <> Val tt -> fs (snd done) !! filelist = files !! filelist).
Proof.
  intros n done ks. subst ks done. unfold produce, bind. rewrite align_run. fold n.
  match goal with |- context [make_clips env args frames lines n ?s] =>
    set (st0 := s) end.
  pose proof (clips_accounted_make_clips env args frames lines n files st0) as Hacc.
  pose proof (filelist_kept_make_clips env args frames lines n (files !! filelist) st0)
    as Hfl.
  destruct (make_clips env args frames lines n st0) as [[[] | c | e] st1];
    cbn [fst snd] in *;
    try (split; [discriminate | intros _; now apply Hfl]).
  assert (Hacc1 : clips_accounted env frames files st1).
  { apply Hacc. intros k Hk. now left. }
  assert (Hfl1 : fs st1 !! filelist = files !! filelist) by now apply Hfl.
  unfold write_manifest, store.
  destruct (fs st1 !! filelist) as [[d | es] |] eqn:Efl; cbn [fst snd].
  - split; [intros _ | intros H; now destruct H].
    apply (manifest_accounted env frames files n st1 Hacc1).
  - split; [discriminate | intros _; now rewrite Efl].
  - split; [intros _ | intros H; now destruct H].
    apply (manifest_accounted env frames files n st1 Hacc1).
Qed.

(** ** The items of a run *)





Lemma item_at_in_range (frames : list Path) (lines : list str) (i : nat) :
  (i < Nat.min (length frames) (length lines))%nat ->
  exists f t, frames !! i = Some f /\ lines !! i = Some t
              /\ item_at frames lines i = [(i, f, t)].
Proof.
  intros Hi.
  destruct (lookup_lt_is_Some_2 frames i) as [f Hf]; [lia|].
  destruct (lookup_lt_is_Some_2 lines i) as [t Ht]; [lia|].
  exists f, t. unfold item_at. now rewrite Hf, Ht.
Qed.


(** ** A run in which nothing goes wrong *)

Lemma process_item_steps (env : Env) (args : Args) (frames : list Path)
    (lines : list str) (i : nat) (frame : Path) (text : str) (st : State) :
  frames !! i = Some frame -> lines !! i = Some text ->
  process_item env args frames lines i st
  = (let! _ := synthesis_step env args text (audio_file (i + 1)) in
     let! duration := get_wav_duration (audio_file (i + 1)) in
     render_step env frame (audio_file (i + 1)) duration (clip_file (i + 1)))
      {| fs := fs st; log := log st ++ [Iteration i frame text] |}.
Proof.
  intros Hf Ht. unfold process_item, index. rewrite Hf, Ht.
  unfold bind at 1 2 3. unfold ret at 1 2. unfold emit at 1. reflexivity.
Qed.

Lemma concatenate_run (env : Env) (args : Args) (st : State) :
  let listing := match fs st !! filelist with Some (File (Text t)) => t | _ => [] end in
  let call := RunConcat (output args) in
  let failed := Print (MsgConcatFailed CalledProcessError) in
  let finished := Print (MsgDone (output args)) in
  concatenate env args st
  = match ffmpeg_concat env listing (output args) with
    | ProcOk =>
        (Val tt, {| fs := <[output args := File Blob]> (fs st);
                    log := log st ++ [call; finished] |})
    | ProcFailed true =>
        (Val tt, {| fs := <[output args := File Blob]> (fs st);
                    log := log st ++ [call; failed; finished] |})
    | ProcFailed false =>
        (Val tt, {| fs := fs st; log := log st ++ [call; failed; finished] |})
    | ProcNotLaunched =>
        (Raise FileNotFoundError, {| fs := fs st; log := log st ++ [call] |})
    end.
Proof.
  unfold concatenate, try_except, subprocess_run, bind, print, emit, store, raise.
  simpl. destruct (ffmpeg_concat env _ _) as [|[]|]; simpl;
    rewrite <- ?app_assoc; reflexivity.
Qed.

Lemma playable_insert_audio (files : gmap str Node) (k : nat) (F R : N) :
  R <> 0 ->
  (forall j, files !! path_str (audio_file j) = None
             \/ playable (files !! path_str (audio_file j))) ->
  forall j, <[path_str (audio_file k) := File (Wav F R)]> files !! path_str (audio_file j) = None
            \/ playable (<[path_str (audio_file k) := File (Wav F R)]> files
                           !! path_str (audio_file j)).
Proof.
  intros HR H j.
  destruct (decide (path_str (audio_file k) = path_str (audio_file j))) as [E | E].
  - right. rewrite E, lookup_insert_eq. now exists F, R.
  - rewrite lookup_insert_ne by exact E. apply H.
Qed.

Lemma playable_insert_other (files : gmap str Node) (p : str) (node : Node) :
  (forall j, p <> path_str (audio_file j)) ->
  (forall j, files !! path_str (audio_file j) = None
             \/ playable (files !! path_str (audio_file j))) ->
  forall j, <[p := node]> files !! path_str (audio_file j) = None
            \/ playable (<[p := node]> files !! path_str (audio_file j)).
Proof. intros Hp H j. rewrite lookup_insert_ne by apply Hp. apply H. Qed.

Lemma healthy_synthesis_step (env : Env) (args : Args) (files : gmap str Node)
    (text : str) (k : nat) (st : State) :
  healthy env files -> audio_playable st ->
  let done := synthesis_step env args text (audio_file k) st in
  fst done = Val tt
  /\ audio_playable (snd done)
  /\ playable (fs (snd done) !! path_str (audio_file k)).
Proof.
  intros (Hq & Hs & Hw & _) Hst. cbn zeta.
  unfold synthesis_step, path_exists, bind, stat, ret. cbn [fst snd].
  destruct (bool_decide (is_Some (fs st !! path_str (audio_file k)))) eqn:Hc; cbn [negb].
  - cbn [fst snd]. split; [reflexivity|]. split; [exact Hst|].
    apply bool_decide_eq_true in Hc. destruct (Hst k) as [Hn | Hp]; [|exact Hp].
    rewrite Hn in Hc. now destruct Hc.
  - unfold synthesize_voice, try_except, bind, print, emit, store, raise, ret.
    cbn [fst snd fs log].
    destruct (Hq (path_str (audio_file k)) text (speaker args)) as [q ->].
    cbn [fst snd fs log].
    destruct (Hs (path_str (audio_file k))
                {| speedScale := speed args; accent_phrases := accent_phrases q |}
                (speaker args)) as [F [R [HR ->]]].
    cbn [fst snd fs log]. rewrite Hw. cbn [fst snd fs log].
    split; [reflexivity|]. split.
    + intros j. cbn [fs]. now apply playable_insert_audio.
    + rewrite lookup_insert_eq. now exists F, R.
Qed.

Lemma healthy_process_item (env : Env) (args : Args) (files : gmap str Node)
    (frames : list Path) (lines : list str) (i : nat) (st : State) :
  healthy env files -> audio_playable st ->
  (i < Nat.min (length frames) (length lines))%nat ->
  let done := process_item env args frames lines i st in
  fst done = Val tt /\ audio_playable (snd done).
Proof.
  intros Hh Hst Hi. cbn zeta.
  destruct (item_at_in_range frames lines i Hi) as [frame [text [Hf [Ht _]]]].
  rewrite (process_item_steps env args frames lines i frame text st Hf Ht).
  unfold bind.
  match goal with |- context [synthesis_step env args text ?a ?s] =>
    destruct (healthy_synthesis_step env args files text (i + 1) s Hh)
      as [Hv [Hpl [F [R [HR Hwav]]]]]; [exact Hst|];
    destruct (synthesis_step env args text a s) as [r st1] end.
  cbn [fst snd] in *. subst r.
  rewrite get_wav_duration_run, Hwav.
  apply N.eqb_neq in HR. rewrite HR. rewrite render_step_run.
  destruct Hh as (_ & _ & _ & Hl & _).
  assert (Hclip : forall j, path_str (clip_file (i + 1)) <> path_str (audio_file j)).
  { intros j E. symmetry in E. now apply audio_clip_distinct in E. }
  destruct (ffmpeg_render env _ _ _ _) as [|[]|] eqn:Er; cbn [fst snd];
    try (now apply Hl in Er);
    (split; [reflexivity|]); try exact Hpl;
    intros j; cbn [fs]; now apply playable_insert_other.
Qed.

Lemma for_each_val (I : State -> Prop) (body : nat -> M unit) (indices : list nat) :
  (forall i st, In i indices -> I st ->
     fst (body i st) = Val tt /\ I (snd (body i st))) ->
  forall st, I st ->
    fst (for_each indices body st) = Val tt /\ I (snd (for_each indices body st)).
Proof.
  induction indices as [|i rest IH]; intros Hb st Hst; cbn [for_each].
  - now split.
  - unfold bind. destruct (Hb i st) as [Hv Hi]; [now left | exact Hst|].
    destruct (body i st) as [r st1]. cbn [fst snd] in *. subst r.
    apply IH; [|exact Hi]. intros j s Hj. apply Hb. now right.
Qed.

Lemma mkdir_exist_ok_healthy (p : Path) (st : State) :
  (forall d, fs st !! path_str p <> Some (File d)) ->
  (forall j, path_str p <> path_str (audio_file j)) ->
  audio_playable st ->
  fst (mkdir_exist_ok p st) = Val tt
  /\ audio_playable (snd (mkdir_exist_ok p st))
  /\ log (snd (mkdir_exist_ok p st)) = log st
  /\ forall q, q <> path_str p ->
       fs (snd (mkdir_exist_ok p st)) !! q = fs st !! q.
Proof.
  intros Hp Hne Hst. unfold mkdir_exist_ok.
  destruct (fs st !! path_str p) as [[d | es] |] eqn:E; cbn [fst snd fs log].
  - now destruct (Hp d).
  - auto.
  - repeat split; auto.
    + intros j. cbn [fs]. now apply playable_insert_other.
    + intros q Hq. now rewrite lookup_insert_ne.
Qed.





Lemma healthy_run_pipeline (env : Env) (args : Args) (frames : list Path)
    (lines : list str) (files : gmap str Node) :
  healthy env files ->
  (forall es, files !! filelist <> Some (Dir es)) ->
  fst (run_pipeline env args frames lines (start files)) = Val tt.
Proof.
  intros Hh Hfl. pose proof Hh as (_ & _ & _ & _ & Hc & Hau & Ha & Hv).
  unfold run_pipeline, produce, bind. rewrite align_run.
  set (n := Nat.min (length frames) (length lines)).
  match goal with |- context [make_clips env args frames lines n ?s] =>
    set (st0 := s) end.
  assert (H0 : audio_playable st0) by exact Hau.
  pose proof (filelist_kept_make_clips env args frames lines n (files !! filelist) st0
                eq_refl) as Hkeep.
  unfold make_clips, bind in Hkeep |- *.
  destruct (mkdir_exist_ok_healthy audio_dir st0) as (Hv1 & Hp1 & _ & Hf1);
    [exact Ha | intros j E; symmetry in E; now apply audio_not_dir in E | exact H0 |].
  destruct (mkdir_exist_ok audio_dir st0) as [r1 st1]. cbn [fst snd] in *. subst r1.
  destruct (mkdir_exist_ok_healthy video_dir st1) as (Hv2 & Hp2 & _ & _);
    [ intros d; rewrite Hf1 by discriminate; apply Hv
    | intros j E; symmetry in E; now apply audio_not_dir in E | exact Hp1 |].
  destruct (mkdir_exist_ok video_dir st1) as [r2 st2]. cbn [fst snd] in *. subst r2.
  destruct (for_each_val audio_playable (process_item env args frames lines) (seq 0 n))
    with (st := st2) as [Hv3 _]; [|exact Hp2|].
  { intros i st Hi Hst. apply (healthy_process_item env args files); auto.
    apply in_seq in Hi. lia. }
  destruct (for_each (seq 0 n) (process_item env args frames lines) st2) as [r3 st3].
  cbn [fst snd] in *. subst r3.
  rewrite write_manifest_ok by (intros es; rewrite Hkeep; apply Hfl).
  rewrite concatenate_run.
  destruct (ffmpeg_concat env _ _) as [|[]|] eqn:Ec; try reflexivity.
  now apply Hc in Ec.
Qed.

(** *** The renderings of a run *)






(** *** The synthesis requests of a run *)







(** ** Failures *)

(** When VOICEVOX cannot be reached for an item whose audio is not on disk,
    the failure is reported with the preview of the text, and then the probe
    of the missing file raises: the loop stops at this item. *)
Lemma failed_synthesis_stops_loop (env : Env) (args : Args) (frames : list Path)
    (lines : list str) (i : nat) (rest : list nat) (frame : Path) (text : str)
    (st : State) :
  frames !! i = Some frame -> lines !! i = Some text ->
  fs st !! path_str (audio_file (i + 1)) = None ->
  audio_query env (path_str (audio_file (i + 1))) text (speaker args) = NoReply ->
  for_each (i :: rest) (process_item env args frames lines) st
  = (Raise FileNotFoundError,
     {| fs := fs st;
        log := log st ++
          [Iteration i frame text;
           PostAudioQuery (path_str (audio_file (i + 1))) text (speaker args);
           Print (MsgSynthFailed (firstn 30 text) ConnectionError)] |}).
Proof.
  intros Hf Ht Hnone Hq. cbn [for_each]. unfold bind at 1.
  rewrite (process_item_steps env args frames lines i frame text st Hf Ht).
  unfold bind at 1. unfold synthesis_step, path_exists, bind at 1 2, stat, ret.
  cbn [fs log]. rewrite Hnone.
  replace (bool_decide (is_Some (@None Node))) with false
    by (symmetry; apply bool_decide_eq_false; now intros [x Hx]).
  cbn [negb]. unfold bind at 1.
  unfold synthesize_voice, try_except, bind at 1 2 3 4, emit at 1.
  cbn [fs log]. rewrite Hq. unfold raise at 1. cbn beta iota.
  unfold bind at 1, print, emit, ret. cbn [fs log].
  unfold bind. rewrite get_wav_duration_run. cbn [fs log]. rewrite Hnone.
  now rewrite <- !app_assoc.
Qed.

Lemma firstn_30_short (text : str) : (length (firstn 30 text) <= 30)%nat.
Proof. apply firstn_le_length. Qed.

(** C1 (failure isolation), at an input where the code departs from it: two
    images, two paragraphs, no audio on disk, VOICEVOX unreachable.  The
    failure of item 1 is reported with the preview of its text, then the run
    ends on an uncaught [FileNotFoundError]: item 2 is never attempted and no
    manifest is written. *)
Theorem C1_failed_synthesis_aborts_run :
  let done := main tts_down demo_args (start demo_files) in
  fst done = Raise FileNotFoundError
  /\ exit_status (fst done) = 1%Z
  /\ log (snd done)
     = [Iteration 0 (path_div (images demo_args) (lit "a.png")) (lit "hello");
        PostAudioQuery (path_str (audio_file 1)) (lit "hello") 1;
        Print (MsgSynthFailed (lit "hello") ConnectionError)]
  /\ iterations (log (snd done))
     = [(0%nat, path_div (images demo_args) (lit "a.png"), lit "hello")]
  /\ manifest (snd done) = None.
Proof. vm_compute. repeat split. Qed.

(** C3 (final concatenation), at an input where the code departs from it:
    the concatenation ends with a non-zero status.  The failure is reported,
    then the completion message is printed and the process ends with exit
    status 0.  With an empty manifest the concatenation is attempted all the
    same, and its failure is reported in the same way. *)
Theorem C3_concat_failure_exits_zero :
  let done := main concat_fails demo_args (start demo_files) in
  let empty := main ffmpeg_fails demo_args (start demo_files) in
  fst done = Val tt
  /\ exit_status (fst done) = 0%Z
  /\ skipn 8 (log (snd done))
     = [RunConcat (lit "output.mp4");
        Print (MsgConcatFailed CalledProcessError);
        Print (MsgDone (lit "output.mp4"))]
  /\ manifest (snd empty) = Some []
  /\ skipn 10 (log (snd empty))
     = [RunConcat (lit "output.mp4");
        Print (MsgConcatFailed CalledProcessError);
        Print (MsgDone (lit "output.mp4"))]
  /\ exit_status (fst empty) = 0%Z.
Proof. vm_compute. repeat split. Qed.

(** An images directory without any image ends the run with exit status 1,
    before the narration is read. *)
Lemma no_images_exits (env : Env) (args : Args) (entries : list str) (st : State) :
  fs st !! path_str (images args) = Some (Dir entries) ->
  is_Some (fs st !! path_str (lines args)) ->
  List.filter is_image (List.map (path_div (images args)) entries) = [] ->
  main env args st
  = (Exit 1, {| fs := fs st; log := log st ++ [Print MsgNoImages] |}).
Proof.
  intros Hd Hl Hno.
  unfold main, is_dir, path_exists, iterdir, bind, stat, ret, print, emit, sys_exit.
  cbn [fs log]. rewrite Hd.
  replace (bool_decide (is_Some (fs st !! path_str (lines args)))) with true
    by (symmetry; now apply bool_decide_eq_true).
  cbn [negb orb]. rewrite Hd. cbn beta iota. now rewrite Hno.
Qed.

(** C8 (empty input), at an input where the code departs from it: two images
    and a narration file without any paragraph.  The run is not stopped: it
    warns that the lines are short, processes no item, writes an empty
    manifest, attempts the concatenation and ends with exit status 0. *)
Theorem C8_no_paragraphs_runs_on :
  let done := main concat_fails demo_args (start no_paragraphs) in
  fst (read_lines_with_paragraphs (lines demo_args) (start no_paragraphs)) = Val []
  /\ fst done = Val tt
  /\ exit_status (fst done) = 0%Z
  /\ log (snd done)
     = [Print (MsgLinesShort 2 0);
        RunConcat (lit "output.mp4");
        Print (MsgConcatFailed CalledProcessError);
        Print (MsgDone (lit "output.mp4"))]
  /\ manifest (snd done) = Some [].
Proof. vm_compute. repeat split. Qed.

(** ** The theorems at work on the sample worlds *)

Lemma all_well_healthy : healthy all_well demo_files.
Proof.
  unfold healthy. repeat split.
  - intros out text sp. eexists. reflexivity.
  - intros out q sp. exists 24000, 24000. split; [discriminate | reflexivity].
  - discriminate.
  - discriminate.
  - intros k. left. unfold demo_files.
    rewrite !lookup_insert_ne by (rewrite audio_file_str; discriminate).
    apply lookup_empty.
  - intros d. vm_compute. discriminate.
  - intros d. vm_compute. discriminate.
Qed.

Lemma demo_files_no_manifest : forall es, demo_files !! filelist <> Some (Dir es).
Proof. intros es. vm_compute. discriminate. Qed.


(** C4 on a run that finds the audio of both items on disk. *)
Lemma C4_cached_run :
  present with_audio (path_str (audio_file 1)) = true
  /\ Forall (fun e => is_tts_call_for (path_str (audio_file 1)) e = false)
       (log (snd (main all_well demo_args (start with_audio)))).
Proof.
  split; [vm_compute; reflexivity|].
  apply (C4_synthesis_cache all_well demo_args). vm_compute. reflexivity.
Defined.

(** C5 on an audio file of 36000 frames at 24000 Hz. *)
Lemma C5_probe_of_cached_audio :
  fs (start with_audio) !! path_str (audio_file 2) = Some (File (Wav 36000 24000))
  /\ 24000 <> 0
  /\ get_wav_duration (audio_file 2) (start with_audio)
     = (Val (truediv 36000 24000), start with_audio).
Proof.
  assert (H1 : fs (start with_audio) !! path_str (audio_file 2)
               = Some (File (Wav 36000 24000))) by (vm_compute; reflexivity).
  assert (H2 : 24000 <> 0) by discriminate.
  split; [exact H1 | split; [exact H2|]].
  exact (proj1 (C5_probed_duration all_well demo_args) _ _ _ _ H1 H2).
Defined.

(** C6 on a run over a clean directory: the clip of item 1 is listed, and
    was rendered by this run. *)
Lemma C6_clean_run :
  fst (produce all_well demo_args demo_frames two_blocks (start demo_files)) = Val tt
  /\ (present demo_files (path_str (clip_file 1)) = true
      \/ render_wrote all_well demo_frames 1
           (snd (produce all_well demo_args demo_frames two_blocks
                   (start demo_files)))).
Proof.
  assert (H1 : fst (produce all_well demo_args demo_frames two_blocks (start demo_files))
               = Val tt) by (vm_compute; reflexivity).
  split; [exact H1|].
  destruct (C6_manifest_eligibility all_well demo_args demo_frames two_blocks demo_files)
    as [H _].
  destruct (H H1) as [_ Hk]. apply Hk. vm_compute. now left.
Defined.


(** C7 on a text of two paragraphs, with a blank-line boundary of three
    line breaks between them. *)
Lemma C7_two_paragraphs :
  all_space [10; 10; 10] = true
  /\ has_nn [10; 10; 10] = true
  /\ split_paragraphs (lit "hello " ++ [10; 10; 10] ++ lit " world")
     = split_paragraphs (lit "hello ") ++ split_paragraphs (lit " world").
Proof.
  split; [reflexivity | split; [reflexivity|]].
  destruct (C7_paragraph_splitter (lit "hello " ++ [10; 10; 10] ++ lit " world"))
    as (_ & _ & H & _).
  exact (H (lit "hello ") [10; 10; 10] (lit " world") eq_refl eq_refl eq_refl).
Defined.

(** * Further properties of the script *)

(** ** [synthesize_voice] *)

(** X1.  [synthesize_voice] never lets an exception out: it returns [True]
    or [False].  It returns [True] exactly when [/audio_query] answered with
    a success status and a query, [/synthesis] answered the query with a
    success status, and the audio was written.  In that case the file holds
    the content of the answer, and the two requests are all that was logged.
    When it returns [False] it has sent [/audio_query], has sent
    [/synthesis] only if [/audio_query] answered with a query, and has then
    printed one warning with the preview of the text; the file is left as it
    was, unless the write itself broke off and left a partial file. *)
Theorem X1_synthesize_voice_outcome (env : Env) (text : str) (out : Path)
    (sp : Z) (spd : float) (st : State) :
  let o := path_str out in
  let ask := PostAudioQuery o text sp in
  let sent := fun q =>
    PostSynthesis o {| speedScale := spd; accent_phrases := accent_phrases q |} sp in
  let done := synthesize_voice env text out sp spd st in
  (exists b, fst done = Val b)
  /\ (fst done = Val true <->
      exists q content,
        audio_query env o text sp = Reply true (Some q)
        /\ synthesis env o {| speedScale := spd; accent_phrases := accent_phrases q |} sp
           = Reply true content
        /\ disk_write env o content = Written)
  /\ (forall q content,
        audio_query env o text sp = Reply true (Some q) ->
        synthesis env o {| speedScale := spd; accent_phrases := accent_phrases q |} sp
        = Reply true content ->
        disk_write env o content = Written ->
        snd done
        = {| fs := <[o := File content]> (fs st); log := log st ++ [ask; sent q] |})
  /\ (fst done = Val false ->
      exists err,
        (events_since st (snd done)
         = [ask; Print (MsgSynthFailed (firstn 30 text) err)]
         \/ exists q,
              audio_query env o text sp = Reply true (Some q)
              /\ events_since st (snd done)
                 = [ask; sent q; Print (MsgSynthFailed (firstn 30 text) err)])
        /\ (fs (snd done) = fs st
            \/ exists content partial,
                 disk_write env o content = WriteFailed (Some partial)
                 /\ fs (snd done) = <[o := File partial]> (fs st))).
Proof.
  intros o ask sent done. subst done ask sent.
  unfold synthesize_voice, try_except, bind, print, emit, store, raise, ret.
  fold o. cbn [fst snd fs log].
  destruct (audio_query env o text sp) as [[] [q|] |] eqn:Hq; cbn [fst snd fs log];
    try (split; [now exists false|];
         split; [split; [discriminate | intros (q' & c' & H1 & _); discriminate]|];
         split; [intros q' c' H1; discriminate|];
         intros _; eexists; split;
           [left; apply events_since_app; cbn [log]; rewrite <- !app_assoc; reflexivity
           | now left]).
  destruct (synthesis env o _ sp) as [[] content |] eqn:Hs; cbn [fst snd fs log];
    try (split; [now exists false|];
         split; [split; [discriminate
                        | intros (q' & c' & H1 & H2 & _); injection H1 as <-;
                          rewrite Hs in H2; discriminate]|];
         split; [intros q' c' H1 H2; injection H1 as <-; rewrite Hs in H2; discriminate|];
         intros _; eexists; split;
           [right; exists q; split; [reflexivity|];
            apply events_since_app; cbn [log]; rewrite <- !app_assoc; reflexivity
           | now left]).
  destruct (disk_write env o content) as [|[partial|]] eqn:Hw; cbn [fst snd fs log].
  - split; [now exists true|].
    split; [split; [intros _; now exists q, content | reflexivity]|].
    split; [|discriminate].
    intros q' c' H1 H2 _. injection H1 as <-. rewrite Hs in H2. injection H2 as <-.
    now rewrite <- !app_assoc.
  - split; [now exists false|].
    split; [split; [discriminate
                   | intros (q' & c' & H1 & H2 & H3); injection H1 as <-;
                     rewrite Hs in H2; injection H2 as <-; rewrite Hw in H3;
                     discriminate]|].
    split; [intros q' c' H1 H2 H3; injection H1 as <-; rewrite Hs in H2;
            injection H2 as <-; rewrite Hw in H3; discriminate|].
    intros _. eexists. split.
    + right. exists q. split; [reflexivity|].
      apply events_since_app. cbn [log]. rewrite <- !app_assoc. reflexivity.
    + right. now exists content, partial.
  - split; [now exists false|].
    split; [split; [discriminate
                   | intros (q' & c' & H1 & H2 & H3); injection H1 as <-;
                     rewrite Hs in H2; injection H2 as <-; rewrite Hw in H3;
                     discriminate]|].
    split; [intros q' c' H1 H2 H3; injection H1 as <-; rewrite Hs in H2;
            injection H2 as <-; rewrite Hw in H3; discriminate|].
    intros _. eexists. split.
    + right. exists q. split; [reflexivity|].
      apply events_since_app. cbn [log]. rewrite <- !app_assoc. reflexivity.
    + now left.
Qed.

(** X2.  The query sent to [/synthesis] is the one [/audio_query] answered,
    with its speed field, and only that field, replaced by the speed the
    caller asked for; it is sent for the same speaker, and only after
    [/audio_query] answered with a success status and a query. *)
Theorem X2_synthesis_request_carries_speed (env : Env) (text : str) (out : Path)
    (sp : Z) (spd : float) (st : State) (o : str) (q : AudioQuery) (z : Z) :
  In (PostSynthesis o q z)
    (events_since st (snd (synthesize_voice env text out sp spd st))) ->
  o = path_str out /\ z = sp /\ speedScale q = spd
  /\ exists answered,
       audio_query env (path_str out) text sp = Reply true (Some answered)
       /\ accent_phrases q = accent_phrases answered.
Proof.
  unfold synthesize_voice, try_except, bind, print, emit, store, raise, ret.
  cbn [fst snd fs log].
  destruct (audio_query env (path_str out) text sp) as [[] [a|] |] eqn:Hq;
    cbn [fst snd fs log];
    try (erewrite events_since_app by (cbn [log]; rewrite <- !app_assoc; reflexivity);
         intros [H | [H | []]]; discriminate).
  assert (Hin : forall tail,
             In (PostSynthesis o q z)
               (PostAudioQuery (path_str out) text sp
                :: PostSynthesis (path_str out)
                     {| speedScale := spd; accent_phrases := accent_phrases a |} sp
                :: tail) ->
             (forall e, In e tail -> is_tts_call e = false) ->
             o = path_str out /\ z = sp /\ speedScale q = spd
             /\ exists answered,
                  Reply true (Some a) = Reply true (Some answered)
                  /\ accent_phrases q = accent_phrases answered).
  { intros tail [H | [H | H]] Htail; [discriminate | | now apply Htail in H].
    injection H as <- <- <-. repeat split. now exists a. }
  destruct (synthesis env (path_str out) _ sp) as [[] content |]; cbn [fst snd fs log];
    try (erewrite events_since_app by (cbn [log]; rewrite <- !app_assoc; reflexivity);
         intros H; apply (Hin _ H); intros e [<- | []]; reflexivity).
  destruct (disk_write env (path_str out) content) as [|[partial|]];
    cbn [fst snd fs log];
    (erewrite events_since_app by (cbn [log]; rewrite <- !app_assoc; reflexivity));
    intros H; apply (Hin _ H);
    first [intros e [<- | []]; reflexivity | intros e []].
Qed.

(** ** The checks at the start of [main] *)

Lemma sorted_nil_iff (l : list Path) : sorted l = [] <-> l = [].
Proof.
  split; [|now intros ->].
  intros H. pose proof (sorted_perm l) as Hp. rewrite H in Hp.
  now apply Permutation_nil in Hp.
Qed.

(** X3.  A run stops with exit status 1, having printed one message and
    changed nothing on disk, when the images path is not a directory, when
    the lines path does not exist, or when no entry of the directory is an
    image.  A lines path that exists but cannot be read as text (a directory,
    a binary file) passes these checks and ends the run with an uncaught
    exception, again before anything is written or requested. *)
Theorem X3_input_validation (env : Env) (args : Args) (st : State) :
  let said := fun m => {| fs := fs st; log := log st ++ [Print m] |} in
  ((forall es, fs st !! path_str (images args) <> Some (Dir es)) ->
     main env args st = (Exit 1, said MsgMissingInput))
  /\ (fs st !! path_str (lines args) = None ->
      main env args st = (Exit 1, said MsgMissingInput))
  /\ (forall es,
        fs st !! path_str (images args) = Some (Dir es) ->
        is_Some (fs st !! path_str (lines args)) ->
        List.filter is_image (List.map (path_div (images args)) es) = [] ->
        main env args st = (Exit 1, said MsgNoImages))
  /\ (forall es node,
        fs st !! path_str (images args) = Some (Dir es) ->
        List.filter is_image (List.map (path_div (images args)) es) <> [] ->
        fs st !! path_str (lines args) = Some node ->
        (forall t, node <> File (Text t)) ->
        main env args st
        = (Raise (match node with Dir _ => IsADirectoryError | File _ => UnicodeDecodeError end),
           st)).
Proof.
  intros said. subst said.
  unfold main, is_dir, path_exists, iterdir, read_lines_with_paragraphs,
    bind, stat, ret, print, emit, sys_exit, raise.
  cbn [fst snd fs log].
  split; [|split; [|split]].
  - intros Hd. destruct (fs st !! path_str (images args)) as [[d | es] |];
      try reflexivity. now destruct (Hd es).
  - intros ->.
    replace (bool_decide (is_Some (@None Node))) with false
      by (symmetry; apply bool_decide_eq_false; now intros [x Hx]).
    cbn [negb]. now rewrite orb_true_r.
  - intros es Hd Hl Hno. rewrite Hd.
    replace (bool_decide (is_Some (fs st !! path_str (lines args)))) with true
      by (symmetry; now apply bool_decide_eq_true).
    cbn [negb orb]. rewrite Hd. cbn beta iota. now rewrite Hno.
  - intros es node Hd Hsome Hl Hnt. rewrite Hd, Hl.
    replace (bool_decide (is_Some (Some node))) with true
      by (symmetry; now apply bool_decide_eq_true).
    cbn [negb orb]. rewrite Hd. cbn beta iota.
    destruct (sorted (List.filter is_image (List.map (path_div (images args)) es)))
      as [|p l] eqn:Es; [apply (proj1 (sorted_nil_iff _)) in Es; contradiction|].
    rewrite Hl. destruct node as [[t | F R |] | names]; try reflexivity.
    now destruct (Hnt t).
Qed.

(** ** What a run leaves alone *)





(** ** The names of the files of the items *)

(** X5.  The audio file and the clip of an item are named after its number
    alone: two items never share an audio file or a clip, also past item 999
    where the number takes more than three digits; no audio file is a clip,
    and neither is the manifest.  Up to 999 the number is written with
    exactly three digits. *)
Theorem X5_item_files_are_told_apart (j k : nat) :
  (path_str (audio_file j) = path_str (audio_file k) -> j = k)
  /\ (path_str (clip_file j) = path_str (clip_file k) -> j = k)
  /\ path_str (audio_file j) <> path_str (clip_file k)
  /\ path_str (audio_file j) <> filelist
  /\ path_str (clip_file j) <> filelist
  /\ ((k < 1000)%nat -> length (fmt_03d (N.of_nat k)) = 3%nat).
Proof.
  split; [apply audio_file_inj|]. split; [apply clip_file_inj|].
  split; [apply audio_clip_distinct|].
  destruct (filelist_distinct j) as (Hc & Ha & _).
  split; [congruence|]. split; [congruence|].
  intros Hk.
  assert (H : forallb (fun i => (length (fmt_03d (N.of_nat i)) =? 3)%nat) (seq 0 1000)
              = true) by (vm_compute; reflexivity).
  rewrite forallb_forall in H. apply Nat.eqb_eq, H, in_seq. lia.
Qed.

(** ** A rendering that fails *)


(** ** The order of the frames *)





(** ** A run in which every step succeeds *)

Lemma present_kept_process_item (env : Env) (args : Args) (frames : list Path)
    (lines : list str) (i : nat) (p : str) (st : State) :
  present (fs st) p = true ->
  present (fs (snd (process_item env args frames lines i st))) p = true.
Proof.
  apply (monotone_process_item (fun s => present (fs s) p = true)).
  - intros s e _ H. exact H.
  - intros s q n _ H. now apply present_insert.
Qed.

Lemma rendered_process_item (env : Env) (args : Args) (files : gmap str Node)
    (frames : list Path) (lines : list str) (i : nat) (st : State) :
  healthy env files ->
  (forall f a d c, ffmpeg_render env f a d c = ProcOk) ->
  audio_playable st ->
  (i < Nat.min (length frames) (length lines))%nat ->
  present (fs (snd (process_item env args frames lines i st)))
    (path_str (clip_file (i + 1))) = true.
Proof.
  intros Hh Hok Hst Hi.
  destruct (item_at_in_range frames lines i Hi) as [frame [text [Hf [Ht _]]]].
  rewrite (process_item_steps env args frames lines i frame text st Hf Ht).
  unfold bind.
  match goal with |- context [synthesis_step env args text ?a ?s] =>
    destruct (healthy_synthesis_step env args files text (i + 1) s Hh)
      as [Hv [Hpl [F [R [HR Hwav]]]]]; [exact Hst|];
    destruct (synthesis_step env args text a s) as [r st1] end.
  cbn [fst snd] in *. subst r.
  rewrite get_wav_duration_run, Hwav.
  apply N.eqb_neq in HR. rewrite HR. rewrite render_step_run, Hok. cbn [snd fs].
  unfold present. apply bool_decide_eq_true. rewrite lookup_insert_eq. eauto.
Qed.

Lemma healthy_loop_leaves (item_file : nat -> Path) (env : Env) (args : Args)
    (files : gmap str Node) (frames : list Path) (lines : list str) :
  healthy env files ->
  (forall i st,
      audio_playable st -> (i < Nat.min (length frames) (length lines))%nat ->
      present (fs (snd (process_item env args frames lines i st)))
        (path_str (item_file (i + 1)%nat)) = true) ->
  forall m a st,
    (a + m <= Nat.min (length frames) (length lines))%nat ->
    audio_playable st ->
    (forall k, (1 <= k <= a)%nat -> present (fs st) (path_str (item_file k)) = true) ->
    let done := for_each (seq a m) (process_item env args frames lines) st in
    fst done = Val tt
    /\ audio_playable (snd done)
    /\ forall k, (1 <= k <= a + m)%nat ->
         present (fs (snd done)) (path_str (item_file k)) = true.
Proof.
  intros Hh Hnew. induction m as [|m IH]; intros a st Ham Hst Hhave; cbn zeta.
  - cbn [seq for_each]. split; [reflexivity|]. split; [exact Hst|].
    intros k Hk. apply Hhave. lia.
  - cbn [seq for_each]. unfold bind.
    destruct (healthy_process_item env args files frames lines a st Hh Hst) as [Hv Hpl];
      [lia|].
    pose proof (Hnew a st Hst) as Hmade.
    pose proof (fun p => present_kept_process_item env args frames lines a p st) as Hold.
    destruct (process_item env args frames lines a st) as [r st1].
    cbn [fst snd] in *. subst r.
    destruct (IH (S a) st1) as [Hv' [Hpl' Hall]]; [lia | exact Hpl | |].
    + intros k Hk. destruct (decide (k = a + 1)%nat) as [-> | Hne].
      * apply Hmade. lia.
      * apply Hold, Hhave. lia.
    + split; [exact Hv'|]. split; [exact Hpl'|]. intros k Hk. apply Hall. lia.
Qed.

Lemma filter_all {A : Type} (f : A -> bool) (l : list A) :
  (forall x, In x l -> f x = true) -> List.filter f l = l.
Proof.
  induction l as [|x l IH]; intros H; simpl; [reflexivity|].
  rewrite (H x) by now left. f_equal. apply IH. intros y Hy. apply H. now right.
Qed.

(** X8.  When nothing goes wrong, [filelist.txt] is not the name of a
    directory and every rendering succeeds, the run writes a manifest that
    lists the clips of all N items, 1 to N in this order and nothing else,
    and ends with exit status 0. *)
Theorem X8_clean_run_lists_every_clip (env : Env) (args : Args)
    (frames : list Path) (lines : list str) (files : gmap str Node) :
  healthy env files ->
  (forall es, files !! filelist <> Some (Dir es)) ->
  (forall f a d c, ffmpeg_render env f a d c = ProcOk) ->
  let n := Nat.min (length frames) (length lines) in
  let done := produce env args frames lines (start files) in
  fst done = Val tt
  /\ manifest (snd done)
     = Some (concat (List.map (fun k => manifest_line (clip_file k)) (seq 1 n)))
  /\ exit_status (fst (run_pipeline env args frames lines (start files))) = 0%Z.
Proof.
  intros Hh Hfl Hok n done.
  rewrite (healthy_run_pipeline env args frames lines files Hh Hfl).
  cut (fst done = Val tt
       /\ manifest (snd done)
          = Some (concat (List.map (fun k => manifest_line (clip_file k)) (seq 1 n)))).
  { intros [H1 H2]. repeat split; assumption. }
  subst done. pose proof Hh as (_ & _ & _ & _ & _ & Hau & Ha & Hv).
  unfold produce, bind. rewrite align_run. fold n.
  match goal with |- context [make_clips env args frames lines n ?s] =>
    set (st0 := s) end.
  assert (H0 : audio_playable st0) by exact Hau.
  pose proof (filelist_kept_make_clips env args frames lines n (files !! filelist) st0
                eq_refl) as Hkeep.
  unfold make_clips, bind in Hkeep |- *.
  destruct (mkdir_exist_ok_healthy audio_dir st0) as (Hv1 & Hp1 & _ & Hf1);
    [exact Ha | intros j E; symmetry in E; now apply audio_not_dir in E | exact H0 |].
  destruct (mkdir_exist_ok audio_dir st0) as [r1 st1]. cbn [fst snd] in *. subst r1.
  destruct (mkdir_exist_ok_healthy video_dir st1) as (Hv2 & Hp2 & _ & _);
    [ intros d; rewrite Hf1 by discriminate; apply Hv
    | intros j E; symmetry in E; now apply audio_not_dir in E | exact Hp1 |].
  destruct (mkdir_exist_ok video_dir st1) as [r2 st2]. cbn [fst snd] in *. subst r2.
  destruct (healthy_loop_leaves clip_file env args files frames lines Hh
              (fun i st => rendered_process_item env args files frames lines i st Hh Hok)
              n 0 st2) as [Hv3 [_ Hall]];
    [ fold n; lia | exact Hp2 | intros k Hk; lia |].
  destruct (for_each (seq 0 n) (process_item env args frames lines) st2) as [r3 st3].
  cbn [fst snd] in *. subst r3.
  rewrite write_manifest_ok by (intros es; rewrite Hkeep; apply Hfl).
  split; [reflexivity|].
  unfold manifest. cbn [fst snd fs].
  rewrite lookup_insert_eq, manifest_lines_filter, filter_all; [reflexivity|].
  intros k Hk. apply Hall. apply in_seq in Hk. lia.
Qed.

(** ** The blocks of a narration, put together again *)

Lemma lstrip_fixed (s : str) :
  (forall c r, s = c :: r -> is_space c = false) -> lstrip s = s.
Proof.
  destruct s as [|c r]; intros H; simpl; [reflexivity|].
  now rewrite (H c r eq_refl).
Qed.

Lemma lstrip_idem (s : str) : lstrip (lstrip s) = lstrip s.
Proof. apply lstrip_fixed. intros c r E. exact (lstrip_head _ _ _ E). Qed.

Lemma rstrip_idem (s : str) : rstrip (rstrip s) = rstrip s.
Proof. unfold rstrip. now rewrite rev_involutive, lstrip_idem. Qed.

Lemma strip_idem (s : str) : strip (strip s) = strip s.
Proof.
  unfold strip. set (q := lstrip s).
  assert (Hl : lstrip (rstrip q) = rstrip q).
  { apply lstrip_fixed. intros c r E.
    destruct (rstrip_decomp q) as [w [_ Hq]]. rewrite E in Hq.
    apply (lstrip_head s c (r ++ w)). exact Hq. }
  rewrite Hl. apply rstrip_idem.
Qed.

(** No piece of [s.split("\n\n")] contains the separator. *)
Lemma split_nn_pieces_free (s : str) :
  forall cur,
    has_nn cur = false -> ends_nl cur && starts_nl s = false ->
    Forall (fun p => has_nn p = false) (split_nn cur s).
Proof.
  induction s as [| c | c d s IH0 IH1] using str_ind2; intros cur Hcur Hedge.
  - repeat constructor. exact Hcur.
  - repeat constructor. rewrite has_nn_snoc, Hcur. exact Hedge.
  - cbn [starts_nl] in Hedge. cbn [split_nn].
    destruct (is_nl c && is_nl d) eqn:E.
    + constructor; [exact Hcur|]. apply IH0; reflexivity.
    + apply IH1.
      * rewrite has_nn_snoc, Hcur. exact Hedge.
      * rewrite ends_nl_snoc. exact E.
Qed.

Lemma split_paragraphs_pieces (s : str) :
  split_paragraphs s = trim_blocks (spec_pieces [] [] s).
Proof.
  unfold split_paragraphs. rewrite trim_blocks_comprehension.
  now rewrite split_nn_spec_pieces, spec_pieces_strip.
Qed.

Lemma split_paragraphs_block (b : str) :
  b <> [] -> strip b = b -> has_nn b = false -> split_paragraphs b = [b].
Proof.
  intros Hne Hs Hnn. rewrite split_paragraphs_pieces.
  rewrite spec_pieces_single by (try reflexivity; exact Hnn).
  unfold trim_blocks. cbn [List.map app]. rewrite Hs.
  destruct b; [contradiction | reflexivity].
Qed.

Lemma split_paragraphs_join (blocks : list str) :
  Forall (fun b => b <> [] /\ strip b = b /\ has_nn b = false) blocks ->
  split_paragraphs (join_nn blocks) = blocks.
Proof.
  induction 1 as [|b bs (Hne & Hs & Hnn) Hbs IH]; [reflexivity|].
  destruct bs as [|b' bs'].
  - now apply split_paragraphs_block.
  - change (join_nn (b :: b' :: bs')) with (b ++ [10; 10] ++ join_nn (b' :: bs')).
    rewrite split_paragraphs_pieces.
    rewrite (spec_pieces_boundary [10; 10] (join_nn (b' :: bs')) eq_refl eq_refl b [] [] eq_refl).
    rewrite <- !split_paragraphs_pieces, IH.
    now rewrite split_paragraphs_block.
Qed.

Lemma split_paragraphs_blocks (raw : str) :
  Forall (fun b => b <> [] /\ strip b = b /\ has_nn b = false) (split_paragraphs raw).
Proof.
  unfold split_paragraphs. rewrite trim_blocks_comprehension. unfold trim_blocks.
  apply List.Forall_forall. intros b Hb.
  apply filter_In in Hb as [Hin Hb].
  apply in_map_iff in Hin as [p [<- Hp]].
  apply truthy_true in Hb. split; [exact Hb|]. split; [apply strip_idem|].
  pose proof (split_nn_pieces_free (strip raw) [] eq_refl eq_refl) as Hfree.
  rewrite List.Forall_forall in Hfree. specialize (Hfree p Hp).
  destruct (strip_decomp p) as [t [w [_ [_ Heq]]]]. rewrite Heq in Hfree.
  apply has_nn_app_false in Hfree as [_ Hfree].
  now apply has_nn_app_false in Hfree as [Hfree _].
Qed.

(** X9.  Every block the splitter returns is trimmed and holds no two
    consecutive line breaks.  Blocks of this kind, none of them empty,
    joined with an empty line between them, are split into themselves
    again; so splitting the joined blocks of a narration gives the same
    blocks once more. *)
Theorem X9_blocks_survive_rejoining (raw : str) (blocks : list str) :
  Forall (fun b => strip b = b /\ has_nn b = false) (split_paragraphs raw)
  /\ (Forall (fun b => b <> [] /\ strip b = b /\ has_nn b = false) blocks ->
      split_paragraphs (join_nn blocks) = blocks)
  /\ split_paragraphs (join_nn (split_paragraphs raw)) = split_paragraphs raw.
Proof.
  split; [|split].
  - eapply List.Forall_impl; [|apply split_paragraphs_blocks].
    intros b (_ & Hs & Hnn). now split.
  - apply split_paragraphs_join.
  - apply split_paragraphs_join, split_paragraphs_blocks.
Qed.

(** ** The names that are selected as images *)

Lemma rfind_absent (c : N) (s : str) : ~ In c s -> rfind c s = None.
Proof.
  induction s as [|x s IH]; intros H; simpl; [reflexivity|].
  rewrite IH by (intros Hin; apply H; now right).
  destruct (N.eqb_spec x c) as [-> | _]; [|reflexivity].
  exfalso. apply H. now left.
Qed.

Lemma rfind_last (c : N) (s r : str) :
  ~ In c r -> rfind c (s ++ c :: r) = Some (length s).
Proof.
  intros H. induction s as [|x s IH]; simpl.
  - now rewrite (rfind_absent c r H), N.eqb_refl.
  - now rewrite IH.
Qed.

Lemma lower_keeps_dot (s : str) : In 46 s -> In 46 (lower s).
Proof.
  intros H. unfold lower. apply in_flat_map. exists 46. split; [exact H | now left].
Qed.

(** A string whose lowercase form is a dot followed by something without a
    dot is itself a dot followed by something without a dot. *)
Lemma lower_extension (ext t : str) :
  lower ext = 46 :: t -> t <> [] -> ~ In 46 t ->
  exists rest, ext = 46 :: rest /\ rest <> [] /\ ~ In 46 rest.
Proof.
  intros Hl Ht Hno. destruct ext as [|c rest]; [discriminate|].
  assert (Hc : c = 46 /\ lower rest = t).
  { unfold lower in Hl. cbn [flat_map] in Hl. unfold lower_char in Hl.
    destruct ((65 <=? c) && (c <=? 90)) eqn:E1.
    - apply andb_prop in E1 as [E1 _]. apply N.leb_le in E1.
      injection Hl as Hc _. lia.
    - destruct (c =? 304) eqn:E2; [discriminate|].
      destruct (c =? 8490) eqn:E3; [discriminate|].
      injection Hl as Hc Hr. now split. }
  destruct Hc as [-> Hr]. exists rest. split; [reflexivity|]. split.
  - intros ->. now apply Ht.
  - intros Hin. apply Hno. rewrite <- Hr. now apply lower_keeps_dot.
Qed.

Lemma image_ext_shape (ext : str) :
  In (lower ext) image_exts ->
  exists rest, ext = 46 :: rest /\ rest <> [] /\ ~ In 46 rest.
Proof.
  intros H. unfold image_exts in H. cbn [In] in H.
  destruct H as [H | [H | [H | [H | []]]]]; symmetry in H;
    (eapply lower_extension; [exact H | discriminate |]);
    cbn; intros Hin; repeat (destruct Hin as [Hin | Hin]; [discriminate|]); exact Hin.
Qed.

Lemma suffix_of_name (stem rest : str) :
  stem <> [] -> rest <> [] -> ~ In 46 rest ->
  suffix {| anchor := []; parts := [stem ++ 46 :: rest] |} = 46 :: rest.
Proof.
  intros Hs Hr Hno. unfold suffix, name. cbn [parts List.last].
  rewrite (rfind_last 46 stem rest Hno).
  assert (H1 : (0 <? length stem)%nat = true).
  { apply Nat.ltb_lt. destruct stem; [contradiction | simpl; lia]. }
  assert (H2 : (length stem <? length (stem ++ 46%N :: rest) - 1)%nat = true).
  { apply Nat.ltb_lt. rewrite length_app. destruct rest; [contradiction | simpl; lia]. }
  rewrite H1, H2. cbn [andb].
  now rewrite skipn_app, skipn_all, Nat.sub_diag.
Qed.

(** X10.  An entry of the images directory is selected exactly when its
    name is a non-empty stem followed by one of the four extensions, in any
    case.  A name that is nothing but such an extension, like [.png], is not
    selected. *)
Theorem X10_selected_names (frames_dir : Path) (a : str) :
  (is_image (path_div frames_dir a) = true <->
   exists stem ext, a = stem ++ ext /\ stem <> [] /\ In (lower ext) image_exts)
  /\ (In (lower a) image_exts -> is_image (path_div frames_dir a) = false).
Proof.
  split; [split|].
  - intros H. apply is_image_spec in H. rewrite suffix_div in H.
    unfold suffix, name in H. cbn [parts List.last] in H.
    destruct (rfind 46 a) as [i|]; [|now repeat destruct H as [H | H]].
    destruct ((0 <? i)%nat && (i <? length a - 1)%nat) eqn:E;
      [|now repeat destruct H as [H | H]].
    apply andb_prop in E as [E1 E2]. apply Nat.ltb_lt in E1, E2.
    exists (firstn i a), (skipn i a). split; [symmetry; apply firstn_skipn|].
    split; [|exact H].
    intros Hnil. apply (f_equal (@length N)) in Hnil.
    rewrite length_firstn in Hnil. simpl in Hnil. lia.
  - intros (stem & ext & -> & Hs & He).
    destruct (image_ext_shape ext He) as (rest & -> & Hr & Hno).
    apply is_image_spec. rewrite suffix_div, suffix_of_name by assumption. exact He.
  - intros He. destruct (image_ext_shape a He) as (rest & -> & Hr & Hno).
    unfold is_image. rewrite suffix_div. unfold suffix, name. cbn [parts List.last].
    pose proof (rfind_last 46 [] rest Hno) as Hf. cbn [app length] in Hf.
    now rewrite Hf.
Qed.

(** ** The completion message *)

Lemma not_done_events : kept_by_events not_done (fun e => is_done e = false).
Proof.
  intros st e He H. unfold not_done in *. cbn [log].
  apply Forall_app. split; [exact H|]. now repeat constructor.
Qed.

Lemma not_done_writes : kept_by_writes not_done (fun _ => True).
Proof. intros st p n _ H. exact H. Qed.

Lemma not_done_produce (env : Env) (args : Args) (frames : list Path)
    (lines : list str) :
  hoare not_done (produce env args frames lines) (fun _ => not_done).
Proof.
  pose proof not_done_events as Hev. pose proof not_done_writes as Hwr.
  assert (Hsynth : forall text k,
             hoare not_done (synthesis_step env args text (audio_file k))
               (fun _ => not_done)).
  { intros text k. unfold synthesis_step. inv_go;
      try (eapply inv_emit; [apply Hev | reflexivity]);
      try (eapply inv_store; [apply Hwr | exact Logic.I]). }
  inv_go;
    try (eapply inv_emit; [apply Hev | reflexivity]);
    try (eapply inv_store; [apply Hwr | exact Logic.I]);
    try (eapply inv_mkdir; [apply Hwr | exact Logic.I]);
    try (eapply inv_write_manifest; [apply Hwr | exact Logic.I]);
    try apply Hsynth.
Qed.

Lemma completion_bind {A : Type} (args : Args) (m : M A) (k : A -> M unit) :
  hoare not_done m (fun _ => not_done) ->
  (forall a, hoare not_done (k a) (completion args)) ->
  hoare not_done (bind m k) (completion args).
Proof.
  intros Hm Hk.
  apply (hoare_bind not_done (fun _ => not_done)); auto.
Qed.

Lemma completion_exit (args : Args) (m : Msg) :
  (match m with MsgDone _ => false | _ => true end) = true ->
  hoare not_done (let! _ := print m in sys_exit 1) (completion args).
Proof.
  intros Hm. apply completion_bind.
  - unfold print. eapply inv_emit; [apply not_done_events|].
    destruct m; try reflexivity; discriminate.
  - intros _ st H. exact H.
Qed.

Lemma completion_run_pipeline (env : Env) (args : Args) (frames : list Path)
    (lines : list str) :
  hoare not_done (run_pipeline env args frames lines) (completion args).
Proof.
  unfold run_pipeline. apply completion_bind; [apply not_done_produce|].
  intros _ st H. rewrite concatenate_run. cbv zeta.
  destruct (ffmpeg_concat env _ (output args)) as [|[]|]; cbn [fst snd completion log].
  - exists (log st ++ [RunConcat (output args)]). rewrite <- app_assoc.
    split; [reflexivity|]. split.
    + apply Forall_app. split; [exact H | now repeat constructor].
    + apply in_or_app. right. now left.
  - exists (log st ++ [RunConcat (output args); Print (MsgConcatFailed CalledProcessError)]).
    rewrite <- app_assoc. split; [reflexivity|]. split.
    + apply Forall_app. split; [exact H | now repeat constructor].
    + apply in_or_app. right. now left.
  - exists (log st ++ [RunConcat (output args); Print (MsgConcatFailed CalledProcessError)]).
    rewrite <- app_assoc. split; [reflexivity|]. split.
    + apply Forall_app. split; [exact H | now repeat constructor].
    + apply in_or_app. right. now left.
  - apply (not_done_events st (RunConcat (output args)) eq_refl H).
Qed.

Lemma completion_main (env : Env) (args : Args) :
  hoare not_done (main env args) (completion args).
Proof.
  unfold main. cbv zeta.
  apply completion_bind; [apply inv_is_dir | intros dir_ok].
  apply completion_bind; [apply inv_path_exists | intros lines_ok].
  destruct (negb dir_ok || negb lines_ok); [now apply completion_exit|].
  apply completion_bind; [apply inv_iterdir | intros entries].
  destruct (sorted (List.filter is_image entries)); [now apply completion_exit|].
  apply completion_bind; [apply inv_read_lines | intros ls].
  apply completion_run_pipeline.
Qed.

(** X11.  The completion message is logged exactly by the runs that return
    normally.  Such a run logs it last and once, after it has started the
    concatenation; a run that leaves through [sys.exit] or an exception has
    not logged it. *)
Theorem X11_completion_message (env : Env) (args : Args) (files : gmap str Node) :
  let done := main env args (start files) in
  let finished := Print (MsgDone (output args)) in
  match fst done with
  | Val _ =>
      exists evs, log (snd done) = evs ++ [finished]
        /\ Forall (fun e => is_done e = false) evs
        /\ In (RunConcat (output args)) evs
  | _ => Forall (fun e => is_done e = false) (log (snd done))
  end.
Proof.
  apply (completion_main env args (start files)). constructor.
Qed.

(** ** Output directories that cannot be made *)

(** X12.  When a regular file stands where [audio] or [clips] has to go,
    the run ends with [FileExistsError] at lines 83-84: nothing but the
    warning of the alignment has been logged, so no request was sent and no
    command was run, and nothing on disk has changed except that [audio]
    may have been made. *)
Theorem X12_blocked_output_directory (env : Env) (args : Args)
    (frames : list Path) (lines : list str) (files : gmap str Node) (d : Data) :
  files !! path_str audio_dir = Some (File d)
  \/ files !! path_str video_dir = Some (File d) ->
  let done := run_pipeline env args frames lines (start files) in
  fst done = Raise FileExistsError
  /\ exit_status (fst done) = 1%Z
  /\ log (snd done) = log (snd (align frames lines (start files)))
  /\ (forall p, p <> path_str audio_dir -> fs (snd done) !! p = files !! p).
Proof.
  intros Hblock done. subst done.
  assert (Hne : path_str video_dir <> path_str audio_dir) by (vm_compute; discriminate).
  unfold run_pipeline, produce, bind. rewrite align_run. cbn [fst snd].
  unfold make_clips, bind, mkdir_exist_ok. cbn [fs log start].
  destruct (files !! path_str audio_dir) as [[da | es] |] eqn:Ea; cbn [fs log fst snd].
  - repeat split; reflexivity.
  - destruct Hblock as [Hb | Hb]; [discriminate|]. rewrite Hb. cbn [fst snd fs log].
    repeat split; reflexivity.
  - destruct Hblock as [Hb | Hb]; [discriminate|].
    rewrite lookup_insert_ne by (intros E; now apply Hne). rewrite Hb.
    cbn [fst snd fs log]. repeat split; try reflexivity.
    intros p Hp. now rewrite lookup_insert_ne by congruence.
Qed.

(** ** Items whose audio cannot be probed *)

(** X13.  An audio file that is already there is used as it is, whatever it
    holds.  When it is a directory ([IsADirectoryError]), a WAVE file with a
    sample rate of zero ([ZeroDivisionError]), or no WAVE file at all (what
    [wave.open] raises then: [wave.Error], or [EOFError] for a file that ends
    inside the header), the item raises at line 95, outside any [try]: the
    loop stops there, the later items never start, no request is sent, no
    rendering is run, and nothing on disk changes. *)
Theorem X13_unusable_cached_audio (env : Env) (args : Args) (frames : list Path)
    (lines : list str) (i : nat) (rest : list nat) (frame : Path) (text : str)
    (node : Node) (st : State) :
  frames !! i = Some frame -> lines !! i = Some text ->
  fs st !! path_str (audio_file (i + 1)) = Some node ->
  (forall F R, node = File (Wav F R) -> R = 0) ->
  let error :=
    match node with
    | Dir _ => IsADirectoryError
    | File (Wav _ _) => ZeroDivisionError
    | File _ => NotAWave
    end in
  for_each (i :: rest) (process_item env args frames lines) st
  = (Raise error, {| fs := fs st; log := log st ++ [Iteration i frame text] |}).
Proof.
  intros Hf Ht Hnode Hbad error. subst error.
  cbn [for_each]. unfold bind at 1.
  rewrite (process_item_steps env args frames lines i frame text st Hf Ht).
  unfold synthesis_step, path_exists, get_wav_duration, bind, stat, ret, raise.
  cbn [fst snd fs log]. rewrite Hnode.
  replace (bool_decide (is_Some (Some node))) with true
    by (symmetry; now apply bool_decide_eq_true).
  cbn [negb fs]. rewrite Hnode.
  destruct node as [[t | F R |] | es]; try reflexivity.
  now rewrite (Hbad F R eq_refl).
Qed.

(** X14.  When the audio file of an item is not there and the synthesis
    leaves none, the probe of line 95 raises [FileNotFoundError]: the loop
    stops at this item after the requests and the warning of the synthesis,
    the later items never start, no rendering is run, and nothing on disk
    has changed. *)
Theorem X14_failed_synthesis_stops_the_loop (env : Env) (args : Args)
    (frames : list Path) (lines : list str) (i : nat) (rest : list nat)
    (frame : Path) (text : str) (st : State) :
  frames !! i = Some frame -> lines !! i = Some text ->
  let audio := audio_file (i + 1) in
  fs st !! path_str audio = None ->
  fs (snd (synthesize_voice env text audio (speaker args) (speed args) st))
    !! path_str audio = None ->
  let done := for_each (i :: rest) (process_item env args frames lines) st in
  fst done = Raise FileNotFoundError
  /\ fs (snd done) = fs st
  /\ exists calls err,
       events_since st (snd done)
       = Iteration i frame text :: calls ++ [Print (MsgSynthFailed (firstn 30 text) err)]
       /\ Forall (fun e => is_tts_call e = true) calls.
Proof.
  intros Hf Ht audio Hnone Hleft done. subst done.
  cbn [for_each]. unfold bind.
  rewrite (process_item_steps env args frames lines i frame text st Hf Ht).
  fold audio.
  unfold synthesis_step, path_exists, get_wav_duration, bind, stat, ret.
  cbn [fst snd fs log]. rewrite Hnone.
  replace (bool_decide (is_Some (@None Node))) with false
    by (symmetry; apply bool_decide_eq_false; now intros [x Hx]).
  cbn [negb].
  revert Hleft.
  unfold synthesize_voice, try_except, bind, print, emit, store, raise, ret.
  cbn [fst snd fs log].
  destruct (audio_query env (path_str audio) text (speaker args)) as [[] [q|] |];
    cbn [fst snd fs log];
    try (intros _; rewrite Hnone; cbn [fst snd fs log];
         split; [reflexivity|]; split; [reflexivity|];
         exists [PostAudioQuery (path_str audio) text (speaker args)]; eexists;
         split; [apply events_since_app; cbn [log]; rewrite <- !app_assoc; reflexivity|];
         repeat constructor).
  destruct (synthesis env (path_str audio) _ (speaker args)) as [[] content |];
    cbn [fst snd fs log];
    try (intros _; rewrite Hnone; cbn [fst snd fs log];
         split; [reflexivity|]; split; [reflexivity|];
         eexists [_; _]; eexists;
         split; [apply events_since_app; cbn [log]; rewrite <- !app_assoc; reflexivity|];
         repeat constructor).
  destruct (disk_write env (path_str audio) content) as [|[partial|]];
    cbn [fst snd fs log]; try (rewrite lookup_insert_eq; discriminate).
  intros _; rewrite Hnone; cbn [fst snd fs log].
  split; [reflexivity|]; split; [reflexivity|].
  eexists [_; _]; eexists.
  split; [apply events_since_app; cbn [log]; rewrite <- !app_assoc; reflexivity|].
  repeat constructor.
Qed.

(** ** Running again *)

Lemma cached_silent_events (n : nat) :
  kept_by_events (cached_silent n) (fun e => is_tts_call e = false).
Proof.
  intros st e He [Hc Hl]. split; [exact Hc|]. cbn [log].
  apply Forall_app. split; [exact Hl | now repeat constructor].
Qed.

Lemma cached_silent_writes (n : nat) : kept_by_writes (cached_silent n) (fun _ => True).
Proof.
  intros st p nd _ [Hc Hl]. split; [|exact Hl].
  intros k Hk. cbn [fs]. apply present_insert. now apply Hc.
Qed.

Lemma cached_silent_make_clips (env : Env) (args : Args) (frames : list Path)
    (lines : list str) (n : nat) :
  hoare (cached_silent n) (make_clips env args frames lines n)
    (fun _ => cached_silent n).
Proof.
  unfold make_clips.
  apply inv_bind; [eapply inv_mkdir; [apply cached_silent_writes | exact Logic.I]|].
  intros _.
  apply inv_bind; [eapply inv_mkdir; [apply cached_silent_writes | exact Logic.I]|].
  intros _.
  apply inv_for_each. intros i Hi. apply in_seq in Hi. unfold process_item.
  apply inv_bind; [apply inv_index|]. intros frame.
  apply inv_bind; [apply inv_index|]. intros text.
  apply inv_bind; [eapply inv_emit; [apply cached_silent_events | reflexivity]|].
  intros _. apply inv_bind.
  - intros st [Hc Hl].
    unfold synthesis_step, path_exists, bind, stat, ret. cbn [fst snd].
    assert (Hp : present (fs st) (path_str (audio_file (i + 1))) = true)
      by (apply Hc; lia).
    unfold present in Hp. rewrite Hp. cbn [negb snd]. now split.
  - intros _. apply inv_bind; [apply inv_get_wav_duration|]. intros d.
    inv_go;
      try (eapply inv_emit; [apply cached_silent_events | reflexivity]);
      try (eapply inv_store; [apply cached_silent_writes | exact Logic.I]).
Qed.

Lemma cached_silent_run_pipeline (env : Env) (args : Args) (frames : list Path)
    (lines : list str) :
  hoare (cached_silent (Nat.min (length frames) (length lines)))
    (run_pipeline env args frames lines)
    (fun _ => cached_silent (Nat.min (length frames) (length lines))).
Proof.
  set (n := Nat.min (length frames) (length lines)).
  assert (Hcat : hoare (cached_silent n) (concatenate env args)
                   (fun _ => cached_silent n)).
  { apply inv_concatenate.
    - intros e He. eapply inv_emit; [apply cached_silent_events | exact He].
    - intros d. eapply inv_store; [apply cached_silent_writes | exact Logic.I]. }
  intros st Hst. unfold run_pipeline, produce, bind. rewrite align_run. fold n.
  match goal with |- context [make_clips env args frames lines n ?s] =>
    set (st0 := s) end.
  assert (H0 : cached_silent n st0).
  { destruct Hst as [Hc Hl]. split; [exact Hc|]. subst st0. cbn [log].
    apply Forall_app. split; [exact Hl|].
    destruct (_ <? _)%nat; [now repeat constructor|].
    destruct (_ <? _)%nat; now repeat constructor. }
  pose proof (cached_silent_make_clips env args frames lines n st0 H0) as H1.
  destruct (make_clips env args frames lines n st0) as [[[] | c | e] st1];
    cbn [fst snd] in *; try exact H1.
  pose proof (inv_write_manifest (cached_silent n) (fun _ => True) n
                (cached_silent_writes n) Logic.I st1 H1) as H2.
  destruct (write_manifest n st1) as [[[] | c | e] st2]; cbn [fst snd] in *;
    try exact H2.
  now apply Hcat.
Qed.

Lemma voiced_process_item (env : Env) (args : Args) (files : gmap str Node)
    (frames : list Path) (lines : list str) (i : nat) (st : State) :
  healthy env files ->
  audio_playable st ->
  (i < Nat.min (length frames) (length lines))%nat ->
  present (fs (snd (process_item env args frames lines i st)))
    (path_str (audio_file (i + 1))) = true.
Proof.
  intros Hh Hst Hi.
  destruct (item_at_in_range frames lines i Hi) as [frame [text [Hf [Ht _]]]].
  rewrite (process_item_steps env args frames lines i frame text st Hf Ht).
  unfold bind at 1.
  match goal with |- context [synthesis_step env args text ?a ?s] =>
    destruct (healthy_synthesis_step env args files text (i + 1) s Hh)
      as [Hv [_ [F [R [_ Hwav]]]]]; [exact Hst|];
    destruct (synthesis_step env args text a s) as [r st1] end.
  cbn [fst snd] in *. subst r.
  match goal with |- present (fs (snd (?m st1))) ?p = true =>
    assert (Hkeep : hoare (fun s => present (fs s) p = true) m
                      (fun _ s => present (fs s) p = true)) end.
  { apply inv_bind; [apply inv_get_wav_duration|]. intros d.
    apply monotone_render_step.
    - intros s e _ H. exact H.
    - intros s q nd _ H. now apply present_insert. }
  apply Hkeep. unfold present. apply bool_decide_eq_true. rewrite Hwav. eauto.
Qed.

Lemma audio_cached_after_run (env : Env) (args : Args) (frames : list Path)
    (lines : list str) (files : gmap str Node) :
  healthy env files ->
  audio_cached (Nat.min (length frames) (length lines))
    (snd (run_pipeline env args frames lines (start files))).
Proof.
  intros Hh. set (n := Nat.min (length frames) (length lines)).
  pose proof Hh as (_ & _ & _ & _ & _ & Hau & Ha & Hv).
  assert (Hwr : kept_by_writes (audio_cached n) (fun _ => True)).
  { intros s q nd _ H k Hk. cbn [fs]. apply present_insert. now apply H. }
  assert (Hcat : hoare (audio_cached n) (concatenate env args) (fun _ => audio_cached n)).
  { apply monotone_concatenate; [|exact Hwr]. intros s e _ H. exact H. }
  unfold run_pipeline, produce, bind. rewrite align_run. fold n.
  match goal with |- context [make_clips env args frames lines n ?s] =>
    set (st0 := s) end.
  assert (H0 : audio_playable st0) by exact Hau.
  unfold make_clips, bind.
  destruct (mkdir_exist_ok_healthy audio_dir st0) as (Hv1 & Hp1 & _ & Hf1);
    [exact Ha | intros j E; symmetry in E; now apply audio_not_dir in E | exact H0 |].
  destruct (mkdir_exist_ok audio_dir st0) as [r1 st1]. cbn [fst snd] in *. subst r1.
  destruct (mkdir_exist_ok_healthy video_dir st1) as (Hv2 & Hp2 & _ & _);
    [ intros d; rewrite Hf1 by discriminate; apply Hv
    | intros j E; symmetry in E; now apply audio_not_dir in E | exact Hp1 |].
  destruct (mkdir_exist_ok video_dir st1) as [r2 st2]. cbn [fst snd] in *. subst r2.
  destruct (healthy_loop_leaves audio_file env args files frames lines Hh
              (fun i st Hst => voiced_process_item env args files frames lines i st Hh Hst)
              n 0 st2) as [Hv3 [_ Hall]];
    [ fold n; lia | exact Hp2 | intros k Hk; lia |].
  destruct (for_each (seq 0 n) (process_item env args frames lines) st2) as [r3 st3].
  cbn [fst snd] in *. subst r3.
  assert (H3 : audio_cached n st3) by (intros k Hk; apply Hall; lia).
  pose proof (inv_write_manifest (audio_cached n) (fun _ => True) n Hwr Logic.I st3 H3)
    as H4.
  destruct (write_manifest n st3) as [[[] | c | e] st4]; cbn [fst snd] in *;
    try exact H4.
  now apply Hcat.
Qed.

(** X15.  A run over items whose audio files are all on disk sends no
    request to VOICEVOX.  A run in which nothing goes wrong leaves the
    audio files of all its items on disk; so running it once more on what
    it left, with the same images and blocks, synthesizes nothing. *)
Theorem X15_second_run_synthesizes_nothing (env : Env) (args : Args)
    (frames : list Path) (lines : list str) (files : gmap str Node) :
  let n := Nat.min (length frames) (length lines) in
  let first := run_pipeline env args frames lines (start files) in
  let second := run_pipeline env args frames lines (start (fs (snd first))) in
  (audio_cached n (start files) ->
   Forall (fun e => is_tts_call e = false) (log (snd first)))
  /\ (healthy env files ->
      audio_cached n (snd first)
      /\ Forall (fun e => is_tts_call e = false) (log (snd second))).
Proof.
  intros n first second. split.
  - intros Hc.
    apply (cached_silent_run_pipeline env args frames lines (start files)).
    split; [exact Hc | constructor].
  - intros Hh. pose proof (audio_cached_after_run env args frames lines files Hh) as Hc.
    split; [exact Hc|].
    apply (cached_silent_run_pipeline env args frames lines (start (fs (snd first)))).
    split; [exact Hc | constructor].
Qed.

(** ** The further properties on the sample worlds *)

(** X1 on a synthesis that VOICEVOX answers and the disk takes. *)
Lemma X1_synthesis_succeeds :
  (exists q content,
     audio_query all_well (path_str (audio_file 1)) (lit "hello") 1
     = Reply true (Some q)
     /\ synthesis all_well (path_str (audio_file 1))
          {| speedScale := 1; accent_phrases := accent_phrases q |} 1
        = Reply true content
     /\ disk_write all_well (path_str (audio_file 1)) content = Written)
  /\ fst (synthesize_voice all_well (lit "hello") (audio_file 1) 1 1 (start demo_files))
     = Val true.
Proof.
  assert (H : exists q content,
             audio_query all_well (path_str (audio_file 1)) (lit "hello") 1
             = Reply true (Some q)
             /\ synthesis all_well (path_str (audio_file 1))
                  {| speedScale := 1; accent_phrases := accent_phrases q |} 1
                = Reply true content
             /\ disk_write all_well (path_str (audio_file 1)) content = Written)
    by (eexists _, _; split; [reflexivity | split; reflexivity]).
  split; [exact H|].
  exact (proj2 (proj1 (proj2 (X1_synthesize_voice_outcome all_well (lit "hello")
                                (audio_file 1) 1 1 (start demo_files)))) H).
Defined.

(** X2 on a synthesis at twice the speed: VOICEVOX answers a query with the
    speed 1, the query that is sent on has the speed 2. *)
Lemma X2_speed_override :
  In (PostSynthesis (path_str (audio_file 1))
        {| speedScale := 2; accent_phrases := [] |} 1)
    (events_since (start demo_files)
       (snd (synthesize_voice all_well (lit "hello") (audio_file 1) 1 2
               (start demo_files))))
  /\ exists answered,
       audio_query all_well (path_str (audio_file 1)) (lit "hello") 1
       = Reply true (Some answered)
       /\ speedScale answered = 1%float.
Proof.
  assert (H : In (PostSynthesis (path_str (audio_file 1))
                    {| speedScale := 2; accent_phrases := [] |} 1)
                (events_since (start demo_files)
                   (snd (synthesize_voice all_well (lit "hello") (audio_file 1) 1 2
                           (start demo_files)))))
    by (vm_compute; right; left; reflexivity).
  split; [exact H|].
  destruct (X2_synthesis_request_carries_speed all_well (lit "hello") (audio_file 1)
              1 2 (start demo_files) _ _ _ H) as (_ & _ & _ & answered & Ha & _).
  exists answered. split; [exact Ha|].
  injection Ha as <-. reflexivity.
Defined.

(** X3 with nothing on disk. *)
Lemma X3_nothing_on_disk :
  fs (start ∅) !! path_str (lines demo_args) = None
  /\ main all_well demo_args (start ∅)
     = (Exit 1, {| fs := ∅; log := [Print MsgMissingInput] |}).
Proof.
  assert (H : fs (start ∅) !! path_str (lines demo_args) = None) by reflexivity.
  split; [exact H|].
  destruct (X3_input_validation all_well demo_args (start ∅)) as (_ & H2 & _).
  exact (H2 H).
Defined.


(** X5 on item 7. *)
Lemma X5_item_seven :
  (7 < 1000)%nat /\ length (fmt_03d (N.of_nat 7)) = 3%nat.
Proof.
  assert (H : (7 < 1000)%nat) by lia.
  split; [exact H|].
  destruct (X5_item_files_are_told_apart 0 7) as (_ & _ & _ & _ & _ & H6).
  exact (H6 H).
Defined.



(** X8 on two images and two blocks. *)
Lemma X8_demo_run :
  healthy all_well demo_files
  /\ (forall es, demo_files !! filelist <> Some (Dir es))
  /\ (forall f a d c, ffmpeg_render all_well f a d c = ProcOk)
  /\ manifest (snd (produce all_well demo_args demo_frames two_blocks (start demo_files)))
     = Some (manifest_line (clip_file 1) ++ manifest_line (clip_file 2)).
Proof.
  assert (H : forall f a d c, ffmpeg_render all_well f a d c = ProcOk)
    by (intros f a d c; reflexivity).
  split; [exact all_well_healthy|]. split; [exact demo_files_no_manifest|].
  split; [exact H|].
  destruct (X8_clean_run_lists_every_clip all_well demo_args demo_frames two_blocks
              demo_files all_well_healthy demo_files_no_manifest H) as (_ & Hm & _).
  rewrite Hm. cbn [Nat.min length demo_frames two_blocks seq List.map concat].
  now rewrite app_nil_r.
Defined.

(** X9 on two blocks. *)
Lemma X9_two_blocks_rejoined :
  Forall (fun b => b <> [] /\ strip b = b /\ has_nn b = false) two_blocks
  /\ split_paragraphs (lit "hello" ++ [10; 10] ++ lit "world") = two_blocks.
Proof.
  assert (H : Forall (fun b => b <> [] /\ strip b = b /\ has_nn b = false) two_blocks)
    by (repeat constructor; discriminate).
  split; [exact H|].
  destruct (X9_blocks_survive_rejoining [] two_blocks) as (_ & H2 & _).
  exact (H2 H).
Defined.

(** X10 on a file named [.PNG]. *)
Lemma X10_bare_extension :
  In (lower (lit ".PNG")) image_exts
  /\ is_image (path_div (images demo_args) (lit ".PNG")) = false.
Proof.
  assert (H : In (lower (lit ".PNG")) image_exts) by (now left).
  split; [exact H|].
  exact (proj2 (X10_selected_names (images demo_args) (lit ".PNG")) H).
Defined.

(** X12 on a directory that holds a regular file named [audio]. *)
Lemma X12_file_named_audio :
  (blocked_audio_dir !! path_str audio_dir = Some (File Blob)
   \/ blocked_audio_dir !! path_str video_dir = Some (File Blob))
  /\ fst (run_pipeline all_well demo_args demo_frames two_blocks (start blocked_audio_dir))
     = Raise FileExistsError.
Proof.
  assert (H : blocked_audio_dir !! path_str audio_dir = Some (File Blob)
              \/ blocked_audio_dir !! path_str video_dir = Some (File Blob))
    by (left; vm_compute; reflexivity).
  split; [exact H|].
  exact (proj1 (X12_blocked_output_directory all_well demo_args demo_frames two_blocks
                  blocked_audio_dir Blob H)).
Defined.

(** X13 on an audio file of item 1 that is not a WAVE file. *)
Lemma X13_broken_audio :
  demo_frames !! 0%nat = Some (path_div (images demo_args) (lit "a.png"))
  /\ two_blocks !! 0%nat = Some (lit "hello")
  /\ fs (start broken_audio) !! path_str (audio_file (0 + 1)) = Some (File Blob)
  /\ (forall F R, File Blob = File (Wav F R) -> R = 0)
  /\ for_each [0; 1]%nat (process_item all_well demo_args demo_frames two_blocks)
       (start broken_audio)
     = (Raise NotAWave,
        {| fs := broken_audio;
           log := [Iteration 0 (path_div (images demo_args) (lit "a.png")) (lit "hello")] |}).
Proof.
  assert (H1 : demo_frames !! 0%nat = Some (path_div (images demo_args) (lit "a.png")))
    by reflexivity.
  assert (H2 : two_blocks !! 0%nat = Some (lit "hello")) by reflexivity.
  assert (H3 : fs (start broken_audio) !! path_str (audio_file (0 + 1))
               = Some (File Blob)) by (vm_compute; reflexivity).
  assert (H4 : forall F R, File Blob = File (Wav F R) -> R = 0) by discriminate.
  repeat (split; [assumption|]).
  exact (X13_unusable_cached_audio all_well demo_args demo_frames two_blocks 0 [1%nat]
           _ _ (File Blob) (start broken_audio) H1 H2 H3 H4).
Defined.

(** X14 on a run that cannot reach VOICEVOX. *)
Lemma X14_service_down :
  demo_frames !! 0%nat = Some (path_div (images demo_args) (lit "a.png"))
  /\ two_blocks !! 0%nat = Some (lit "hello")
  /\ fs (start demo_files) !! path_str (audio_file (0 + 1)) = None
  /\ fs (snd (synthesize_voice tts_down (lit "hello") (audio_file (0 + 1))
                (speaker demo_args) (speed demo_args) (start demo_files)))
       !! path_str (audio_file (0 + 1)) = None
  /\ fst (for_each [0; 1]%nat (process_item tts_down demo_args demo_frames two_blocks)
            (start demo_files))
     = Raise FileNotFoundError.
Proof.
  assert (H1 : demo_frames !! 0%nat = Some (path_div (images demo_args) (lit "a.png")))
    by reflexivity.
  assert (H2 : two_blocks !! 0%nat = Some (lit "hello")) by reflexivity.
  assert (H3 : fs (start demo_files) !! path_str (audio_file (0 + 1)) = None)
    by (vm_compute; reflexivity).
  assert (H4 : fs (snd (synthesize_voice tts_down (lit "hello") (audio_file (0 + 1))
                          (speaker demo_args) (speed demo_args) (start demo_files)))
                 !! path_str (audio_file (0 + 1)) = None)
    by (vm_compute; reflexivity).
  repeat (split; [assumption|]).
  exact (proj1 (X14_failed_synthesis_stops_the_loop tts_down demo_args demo_frames
                  two_blocks 0 [1%nat] _ _ (start demo_files) H1 H2 H3 H4)).
Defined.

(** X15 on two runs in a row over two images and two blocks. *)
Lemma X15_demo_rerun :
  healthy all_well demo_files
  /\ Forall (fun e => is_tts_call e = false)
       (log (snd (run_pipeline all_well demo_args demo_frames two_blocks
                    (start (fs (snd (run_pipeline all_well demo_args demo_frames
                                       two_blocks (start demo_files)))))))).
Proof.
  split; [exact all_well_healthy|].
  exact (proj2 (proj2 (X15_second_run_synthesizes_nothing all_well demo_args demo_frames
                         two_blocks demo_files) all_well_healthy)).
Defined.
